(** * A feedforward neural network engine (TypeScript), embedded in Rocq

    The [Network] class of the repository: construction, forward
    propagation ([getOutput]), cost ([getCost]), backpropagation
    ([getGradient]), batch averaging ([getMeanGradient]) and the update
    loop ([gradientDescend]).

    JavaScript's [number] is IEEE-754 binary64, which is Rocq's primitive
    [float]; arrays are lists; reading an array out of range gives
    [undefined] (here [None]); reading a property of [undefined] throws a
    [TypeError]; [undefined] used as an operand is [NaN]. *)

From Stdlib Require Import List ZArith Lia Bool PeanoNat.
From Stdlib Require Import Floats.
Import ListNotations.

Set Implicit Arguments.

(** ** Numbers *)

Module Num.

Definition num := float.

(** An array length or an integer literal as a number. *)
Definition of_nat (n : nat) : num :=
  PrimFloat.of_uint63 (Uint63.of_Z (Z.of_nat n)).

Definition zero : num := of_nat 0.
Definition one : num := of_nat 1.
Definition two : num := of_nat 2.
Definition NaN : num := PrimFloat.nan.

Definition add : num -> num -> num := PrimFloat.add.
Definition sub : num -> num -> num := PrimFloat.sub.
Definition mul : num -> num -> num := PrimFloat.mul.
Definition div : num -> num -> num := PrimFloat.div.
Definition neg : num -> num := PrimFloat.opp.

(** [Math.pow(x, 2)], taken as the correctly rounded square [x * x]. *)
Definition pow2 (x : num) : num := mul x x.

(** A value read from an array and used as an operand of [+], [-] or [*]:
    [undefined] converts to [NaN]. *)
Definition ofValue (v : option num) : num :=
  match v with
  | Some x => x
  | None => NaN
  end.

End Num.
Import Num.

Declare Scope num_scope.
Delimit Scope num_scope with num.
Infix "+" := add : num_scope.
Infix "-" := sub : num_scope.
Infix "*" := mul : num_scope.
Infix "/" := div : num_scope.

(** ** Exceptions and the result of a call *)

Inductive exn : Type :=
| InputLengthError (n : nat)
  (** [Error(`Input and 1st layer must have the same length (${n})`)] *)
| TargetLengthError (n : nat)
  (** [Error(`Target and last layer must have the same length (${n})`)] *)
| BatchLengthError
  (** [Error("Input and target must have the same length")] *)
| TypeError_undefined
  (** the runtime's [TypeError] for a property read on [undefined] *)
| TypeError_reduce_empty.
  (** the runtime's [TypeError] for [reduce] of an empty array with no
      initial value *)

(** The two exceptions the runtime throws by itself. *)
Definition isTypeError (e : exn) : Prop :=
  e = TypeError_undefined \/ e = TypeError_reduce_empty.

Inductive result (A : Type) : Type :=
| Ok (a : A)
| Throw (e : exn).

Arguments Ok {A} a.
Arguments Throw {A} e.

Definition bind {A B} (c : result A) (k : A -> result B) : result B :=
  match c with
  | Ok a => k a
  | Throw e => Throw e
  end.

Notation "x <- c ;; k" := (bind c (fun x => k))
  (at level 61, c at next level, right associativity).

(** Takes apart a sequence of calls that returned. *)
Ltac bind_ok H :=
  repeat match type of H with
    | bind ?c _ = Ok _ =>
        let E := fresh "E" in
        destruct c eqn:E; cbn [bind] in H; [|discriminate H]
    end.

(** ** Arrays *)

Module Js.

(** [xs[i]] for an index [i >= 0]. *)
Definition get {A} (xs : list A) (i : nat) : option A := nth_error xs i.

(** [xs[k - 1]]: index [-1] holds nothing. *)
Definition get_pred {A} (xs : list A) (k : nat) : option A :=
  match k with
  | O => None
  | S k' => nth_error xs k'
  end.

(** A value whose property ([.length], [[i]], [.map], [.reduce], a field)
    is read: the read throws when the value is [undefined]. *)
Definition prop {A} (v : option A) : result A :=
  match v with
  | Some x => Ok x
  | None => Throw TypeError_undefined
  end.

(** [xs[k] = v]. Every assignment of the class is in range (see the call
    sites), where it replaces the element; the array keeps its length. *)
Fixpoint assign {A} (xs : list A) (k : nat) (v : A) : list A :=
  match xs, k with
  | [], _ => []
  | _ :: xs', O => v :: xs'
  | x :: xs', S k' => x :: assign xs' k' v
  end.

(** [xs.map((x, i) => f(x, i))], the callback called in index order; an
    exception of the callback ends the call. *)
Fixpoint mapiM_from {A B} (f : A -> nat -> result B) (i : nat) (xs : list A)
  : result (list B) :=
  match xs with
  | [] => Ok []
  | x :: xs' =>
      y <- f x i ;;
      ys <- mapiM_from f (S i) xs' ;;
      Ok (y :: ys)
  end.

Definition mapiM {A B} (f : A -> nat -> result B) (xs : list A) : result (list B) :=
  mapiM_from f 0 xs.

(** [map] with a callback that cannot throw. *)
Fixpoint mapi_from {A B} (f : A -> nat -> B) (i : nat) (xs : list A) : list B :=
  match xs with
  | [] => []
  | x :: xs' => f x i :: mapi_from f (S i) xs'
  end.

Definition mapi {A B} (f : A -> nat -> B) (xs : list A) : list B :=
  mapi_from f 0 xs.

(** [xs.reduce((acc, x, i) => f(acc, x, i), init)]. *)
Fixpoint reduceM_from {A B} (f : B -> A -> nat -> result B) (i : nat) (acc : B)
  (xs : list A) : result B :=
  match xs with
  | [] => Ok acc
  | x :: xs' =>
      acc' <- f acc x i ;;
      reduceM_from f (S i) acc' xs'
  end.

Definition reduceM {A B} (f : B -> A -> nat -> result B) (init : B) (xs : list A)
  : result B :=
  reduceM_from f 0 init xs.

(** [xs.reduce((acc, x, i) => f(acc, x, i))] with no initial value: the
    first element is the initial accumulator and the callback starts at
    index 1; an empty array throws. *)
Definition reduce1M {A} (f : A -> A -> nat -> result A) (xs : list A) : result A :=
  match xs with
  | [] => Throw TypeError_reduce_empty
  | x :: xs' => reduceM_from f 1 x xs'
  end.

(** [for (let k = from; k < from + count; k++) body], on a state [S]. *)
Fixpoint for_up {S} (count from : nat) (body : nat -> S -> result S) (s : S)
  : result S :=
  match count with
  | O => Ok s
  | Datatypes.S count' =>
      s' <- body from s ;;
      for_up count' (Datatypes.S from) body s'
  end.

(** [for (let k = top - 1; k >= 0; k--) body], on a state [S]. *)
Fixpoint for_down {S} (top : nat) (body : nat -> S -> result S) (s : S)
  : result S :=
  match top with
  | O => Ok s
  | Datatypes.S k =>
      s' <- body k s ;;
      for_down k body s'
  end.

End Js.
Import Js.

(** ** types.d.ts *)

Definition NumericFunction := num -> num.

Record Activation : Type := {
  activation : NumericFunction;
  dActivation : NumericFunction
}.

Record Gradient : Type := {
  nabla_w : list (list (list num));
  nabla_b : list (list num)
}.

(** ** Activations *)

Definition linear : Activation := {|
  activation := fun x => x;
  dActivation := fun _ => one
|}.

(** [Math.max(a, b)] of the runtime: [NaN] when either argument is [NaN],
    otherwise the larger, [-0] counting as smaller than [+0]. *)
Definition Math_max (a b : num) : num :=
  if PrimFloat.is_nan a || PrimFloat.is_nan b then NaN
  else if PrimFloat.ltb a b then b
  else if PrimFloat.ltb b a then a
  else if PrimFloat.get_sign a then b else a.

Definition reLU : Activation := {|
  activation := fun x => Math_max zero x;
  dActivation := fun x => if PrimFloat.leb zero x then one else zero
|}.

(** [leakyReLU(alpha)]; [None] is the throw of
    [Error("Alpha must be greater than 0 and lower than 1")]. The default
    argument is [leakyReLU(0.01)]. *)
Definition leakyReLU (alpha : num) : option Activation :=
  if PrimFloat.leb one alpha || PrimFloat.leb alpha zero then None
  else Some {| activation := fun x => Math_max x (alpha * x)%num;
               dActivation := fun x => if PrimFloat.leb zero x then one else alpha |}.

(** ** The network *)

Record Network : Type := {
  weights : list (list (list num));
  biases : list (list num);
  activations : list Activation
}.

Section Construction.

(** The value the [n]-th call of [Math.random()] returns. *)
Variable Math_random : nat -> num.

(** A computation that draws random numbers: from the number of draws made
    so far to a value and the new number of draws. *)
Definition Rand (A : Type) : Type := nat -> A * nat.

(** [random(min = -1, max = 1)]. *)
Definition random_between (min max : num) : Rand num :=
  fun c => ((Math_random c * (max - min) + min)%num, S c).

Definition random : Rand num := random_between (neg one) one.

(** [Array.from({ length }, () => f())]. *)
Fixpoint Array_from {A} (length : nat) (f : Rand A) : Rand (list A) :=
  fun c =>
    match length with
    | O => ([], c)
    | S length' =>
        let (x, c1) := f c in
        let (xs, c2) := Array_from length' f c1 in
        (x :: xs, c2)
    end.

(** [xs.map((x, i) => f(x, i))] with a callback that draws. *)
Fixpoint mapiR_from {A B} (f : A -> nat -> Rand B) (i : nat) (xs : list A)
  : Rand (list B) :=
  fun c =>
    match xs with
    | [] => ([], c)
    | x :: xs' =>
        let (y, c1) := f x i c in
        let (ys, c2) := mapiR_from f (S i) xs' c1 in
        (y :: ys, c2)
    end.

(** [new Network(...layers)]. A layer is its size, a natural number, and
    its activation. In
    the callbacks [layerIndex - 1] is an index of [layers] whenever
    [layerIndex] is not 0, so [layers[layerIndex - 1]] is never [undefined]
    (the [None] branch is not reached). *)
Definition constructor (layers : list (nat * Activation)) : Network :=
  let (ws, c1) :=
    mapiR_from (fun '(layerSize, _) layerIndex =>
      match layerIndex with
      | O => fun c => ([], c)
      | S _ =>
          let previousLayerSize :=
            match get_pred layers layerIndex with
            | Some (size, _) => size
            | None => O
            end in
          Array_from layerSize (Array_from previousLayerSize random)
      end) 0 layers 0 in
  let (bs, _) :=
    mapiR_from (fun '(layerSize, _) layerIndex =>
      match layerIndex with
      | O => fun c => ([], c)
      | S _ => Array_from layerSize random
      end) 0 layers c1 in
  {| weights := ws;
     biases := bs;
     activations := map (fun '(_, activation) => activation) layers |}.

End Construction.

(** ** Forward propagation *)

(** [weights[k][j].reduce((sum, w, i) => sum + w * a[k - 1][i], 0)], the
    weighted sum both [getOutput] and [outputToZ] compute. *)
Definition weightedSum (a : list (list num)) (weights : list (list (list num)))
  (k j : nat) : result num :=
  wk <- prop (get weights k) ;;
  wkj <- prop (get wk j) ;;
  reduceM (fun sum w i =>
             prev <- prop (get_pred a k) ;;
             Ok (sum + w * ofValue (get prev i))%num)
          zero wkj.

Definition outputToZ (a : list (list num)) (weights : list (list (list num)))
  (biases : list (list num)) (layerIndex neuronIndex : nat) : result num :=
  match layerIndex with
  | O => Ok zero
  | S _ =>
      s <- weightedSum a weights layerIndex neuronIndex ;;
      bk <- prop (get biases layerIndex) ;;
      Ok (s + ofValue (get bk neuronIndex))%num
  end.

(** The guard every method starts with. *)
Definition checkInput (net : Network) (input : list num) : result unit :=
  b0 <- prop (get net.(biases) 0) ;;
  if length b0 =? length input then Ok tt
  else Throw (InputLengthError (length b0)).

(** [L = this.biases.length] and the guard on the target. *)
Definition checkTarget (net : Network) (target : list num) : result unit :=
  let L := length net.(biases) in
  bL <- prop (get_pred net.(biases) L) ;;
  if length bL =? length target then Ok tt
  else Throw (TargetLengthError (length bL)).

(** The assignments [a[0] = input] and [a[k] = ...] are in range: the guard
    has read [biases[0]], and [k < L], the length of [a]. *)
Definition getOutput (net : Network) (input : list num) : result (list (list num)) :=
  _ <- checkInput net input ;;
  let a := map (fun layer => map (fun _ => zero) layer) net.(biases) in
  let a := assign a 0 input in
  for_up (length net.(biases) - 1) 1
    (fun k a =>
       bk <- prop (get net.(biases) k) ;;
       ak <- mapiM (fun b j =>
                      s <- weightedSum a net.(weights) k j ;;
                      let z := (s + b)%num in
                      act <- prop (get net.(activations) k) ;;
                      Ok (act.(activation) z))
                   bk ;;
       Ok (assign a k ak))
    a.

(** ** Cost *)

Definition getCost (net : Network) (input target : list num) : result num :=
  _ <- checkInput net input ;;
  let L := length net.(biases) in
  _ <- checkTarget net target ;;
  a <- getOutput net input ;;
  aL <- prop (get_pred a L) ;;
  reduce1M (fun sum output i =>
              Ok (sum + pow2 (output - ofValue (get target i)))%num)
           aL.

(** ** Backpropagation *)

(** The arrays the backward loop of [getGradient] updates. *)
Record BackState : Type := {
  st_dCda : list (list num);
  st_nabla_w : list (list (list num));
  st_nabla_b : list (list num)
}.

(** [nabla_w[k].reduce((sum, nw) => sum.map((s, i) => s + nw[i] * nabla_b[k][i]))],
    the value assigned to [dCda[k - 1]]; [nwk] is [nabla_w[k]] and [nb] is
    [nabla_b[k]]. *)
Definition propagate (nwk : list (list num)) (nb : list num) : result (list num) :=
  reduce1M (fun sum nw _ =>
              Ok (mapi (fun s i => (s + ofValue (get nw i) * ofValue (get nb i))%num) sum))
           nwk.

(** One turn of [for (let k = L - 1; k >= 0; k--)]. After [nabla_b[k] = nb]
    and [nabla_w[k] = nw] the expressions [nabla_b[k]] and [nabla_w[k]]
    are [nb] and [nw]. The assignments are in range: [k < L], the length of
    [nabla_b] and [dCda], and [weights[k]] was read, so [k] is below the
    length of [nabla_w]. *)
Definition backStep (net : Network) (a : list (list num)) (k : nat) (st : BackState)
  : result BackState :=
  dk <- prop (get st.(st_dCda) k) ;;
  nb <- mapiM (fun dC j =>
                 act <- prop (get net.(activations) k) ;;
                 z <- outputToZ a net.(weights) net.(biases) k j ;;
                 Ok (dC * act.(dActivation) z)%num)
              dk ;;
  let nabla_b := assign st.(st_nabla_b) k nb in
  wk <- prop (get net.(weights) k) ;;
  nw <- mapiM (fun weights i =>
                 mapiM (fun _ j =>
                          prev <- prop (get_pred a k) ;;
                          Ok (ofValue (get nb i) * ofValue (get prev j))%num)
                       weights)
              wk ;;
  let nabla_w := assign st.(st_nabla_w) k nw in
  match k with
  | O => Ok {| st_dCda := st.(st_dCda); st_nabla_w := nabla_w; st_nabla_b := nabla_b |}
  | S k' =>
      d <- propagate nw nb ;;
      Ok {| st_dCda := assign st.(st_dCda) k' d;
            st_nabla_w := nabla_w;
            st_nabla_b := nabla_b |}
  end.

(** The state the backward loop starts from. *)
Definition backInit (net : Network) (a : list (list num)) (target : list num)
  : result BackState :=
  let L := length net.(biases) in
  let dCda := map (fun layer => map (fun _ => zero) layer) net.(biases) in
  let nabla_w :=
    map (fun layer => map (fun neuron => map (fun _ => zero) neuron) layer)
        net.(weights) in
  let nabla_b := map (fun layer => map (fun _ => zero) layer) net.(biases) in
  aL <- prop (get_pred a L) ;;
  let dL := mapi (fun output i => (two * (output - ofValue (get target i)))%num) aL in
  Ok {| st_dCda := assign dCda (L - 1) dL;
        st_nabla_w := nabla_w;
        st_nabla_b := nabla_b |}.

(** [getGradient] with the arrays of the backward pass as they are when the
    loop ends. *)
Definition backward (net : Network) (input target : list num) : result BackState :=
  _ <- checkInput net input ;;
  _ <- checkTarget net target ;;
  a <- getOutput net input ;;
  st <- backInit net a target ;;
  for_down (length net.(biases)) (backStep net a) st.

Definition getGradient (net : Network) (input target : list num) : result Gradient :=
  st <- backward net input target ;;
  Ok {| nabla_w := st.(st_nabla_w); nabla_b := st.(st_nabla_b) |}.

(** ** Batches *)

(** The callback of the [reduce] in [getMeanGradient]. *)
Definition addGradient (sum g : Gradient) : result Gradient :=
  nw <- mapiM (fun s k =>
                 mapiM (fun s1 i =>
                          mapiM (fun s2 j =>
                                   gk <- prop (get g.(nabla_w) k) ;;
                                   gki <- prop (get gk i) ;;
                                   Ok (s2 + ofValue (get gki j))%num)
                                s1)
                       s)
              sum.(nabla_w) ;;
  nb <- mapiM (fun s k =>
                 mapiM (fun s1 i =>
                          gk <- prop (get g.(nabla_b) k) ;;
                          Ok (s1 + ofValue (get gk i))%num)
                       s)
              sum.(nabla_b) ;;
  Ok {| nabla_w := nw; nabla_b := nb |}.

(** [input] and [target] have the same length when the [map] runs, so
    [target[n]] is an array for every index [n] of [input]. *)
Definition getMeanGradient (net : Network) (input target : list (list num))
  : result Gradient :=
  if negb (length input =? length target) then Throw BatchLengthError
  else
    let total := of_nat (length input) in
    gradients <- mapiM (fun i n =>
                          t <- prop (get target n) ;;
                          getGradient net i t)
                       input ;;
    totalGradient <- reduce1M (fun sum g _ => addGradient sum g) gradients ;;
    Ok {| nabla_w :=
            map (fun k => map (fun i => map (fun j => (j / total)%num) i) k)
                totalGradient.(nabla_w);
          nabla_b :=
            map (fun k => map (fun i => (i / total)%num) k) totalGradient.(nabla_b) |}.

(** ** The update *)

(** [this.weights.map((w0, k) => w0.map((w1, i) => w1.map((w, j) => w - nabla_w[k][i][j])))]. *)
Definition subWeights (ws nabla_w : list (list (list num)))
  : result (list (list (list num))) :=
  mapiM (fun w0 k =>
           mapiM (fun w1 i =>
                    mapiM (fun w j =>
                             gk <- prop (get nabla_w k) ;;
                             gki <- prop (get gk i) ;;
                             Ok (w - ofValue (get gki j))%num)
                          w1)
                 w0)
        ws.

(** [this.biases.map((b0, k) => b0.map((b, i) => b - nabla_b[k][i]))]. *)
Definition subBiases (bs nabla_b : list (list num)) : result (list (list num)) :=
  mapiM (fun b0 k =>
           mapiM (fun b i =>
                    gk <- prop (get nabla_b k) ;;
                    Ok (b - ofValue (get gk i))%num)
                 b0)
        bs.

(** A method that assigns fields of [this]: the network it leaves, and
    whether it returned or threw. *)
Definition Update : Type := Network * result unit.

(** One turn of the loop of [gradientDescend], for the batch
    [input[n]], [target[n]]. The two assignments are two statements: an
    exception of the second leaves the first done. *)
Definition descendStep (net : Network) (input target : list (list num)) : Update :=
  match getMeanGradient net input target with
  | Throw e => (net, Throw e)
  | Ok g =>
      match subWeights net.(weights) g.(nabla_w) with
      | Throw e => (net, Throw e)
      | Ok ws =>
          let net1 := {| weights := ws;
                         biases := net.(biases);
                         activations := net.(activations) |} in
          match subBiases net1.(biases) g.(nabla_b) with
          | Throw e => (net1, Throw e)
          | Ok bs =>
              ({| weights := ws; biases := bs; activations := net.(activations) |},
               Ok tt)
          end
      end
  end.

(** [for (let n = from; n < from + count; n++)] of [gradientDescend];
    [input[n]] and [target[n]] are arrays there, the two lists having the
    same length [total]. *)
Fixpoint descendLoop (count from : nat) (net : Network)
  (input target : list (list (list num))) : Update :=
  match count with
  | O => (net, Ok tt)
  | S count' =>
      match get input from, get target from with
      | Some i, Some t =>
          match descendStep net i t with
          | (net', Ok _) => descendLoop count' (S from) net' input target
          | (net', Throw e) => (net', Throw e)
          end
      | _, _ => (net, Throw TypeError_undefined)
      end
  end.

Definition gradientDescend (net : Network) (input target : list (list (list num)))
  : Update :=
  if negb (length input =? length target) then (net, Throw BatchLengthError)
  else
    let total := length input in
    descendLoop total 0 net input target.

(** ** The spec's formulas and the scenario of the spec *)

(** The spec's cost: the sum over the output neurons [i] of
    [(output[i] - target[i])^2]. *)
Definition cost_spec (output target : list num) : num :=
  fold_left (fun s '(o, t) => (s + pow2 (o - t))%num) (combine output target) zero.

(** The spec's propagated error: for the neuron [j] of the previous layer,
    the sum over the neurons [i] of layer [k] of
    [delta[k][i] * weights[k][i][j]]. *)
Definition propagate_spec (delta : list num) (wk : list (list num)) (width : nat)
  : list num :=
  map (fun j =>
         fold_left (fun s '(d, row) => (s + d * ofValue (get row j))%num)
                   (combine delta wk) zero)
      (seq 0 width).

(** [size(k)] of a topology. *)
Definition size (layers : list (nat * Activation)) (k : nat) : nat :=
  match get layers k with
  | Some (n, _) => n
  | None => 0
  end.

(** The assignments [net.weights[k] = w] and [net.biases[k] = b] a caller
    makes to set parameters. *)
Definition withParameters (net : Network) (k : nat) (w : list (list num))
  (b : list num) : Network :=
  {| weights := assign net.(weights) k w;
     biases := assign net.(biases) k b;
     activations := net.(activations) |}.

(** The spec's scenario: layers [(2, linear), (1, linear)] with
    [weights[1] = [[1, 1]]] and [biases[1] = [0]]. *)
Definition scenario (Math_random : nat -> num) : Network :=
  withParameters (constructor Math_random [(2, linear); (1, linear)]) 1
                 [[1%float; 1%float]] [0%float].

(** The scenario after the further assignment [net.biases[0] = [0, 0]],
    which makes the guard on the input accept two numbers. *)
Definition scenario_open (Math_random : nat -> num) : Network :=
  let net := scenario Math_random in
  {| weights := net.(weights);
     biases := assign net.(biases) 0 [0%float; 0%float];
     activations := net.(activations) |}.

(** [Math.random()] returning 0.75, 0.625, 0.5, 0.5, ...: [random()] is
    then 0.5, 0.25, 0, 0, ... *)
Definition draws (n : nat) : num :=
  match n with
  | 0 => 0.75%float
  | 1 => 0.625%float
  | _ => 0.5%float
  end.

(** A topology whose input layer has no neuron:
    [new Network([0, linear], [1, linear], [1, linear])]. *)
Definition narrow : Network :=
  constructor draws [(0, linear); (1, linear); (1, linear)].

(** ** Shapes, entries and the spec's update *)

(** The length of every row of a nested array. *)
Definition shape2 {A} (m : list (list A)) : list nat := map (@length A) m.

Definition shape3 {A} (w : list (list (list A))) : list (list nat) :=
  map (@shape2 A) w.

(** [m[k][i]] and [w[k][i][j]], [None] when any index is out of range. *)
Definition get2 (m : list (list num)) (k i : nat) : option num :=
  match get m k with
  | Some row => get row i
  | None => None
  end.

Definition get3 (w : list (list (list num))) (k i j : nat) : option num :=
  match get w k with
  | Some m => get2 m i j
  | None => None
  end.

(** The spec's update for one batch: [weights[k][i][j] -= nabla_w[k][i][j]]
    and [biases[k][i] -= nabla_b[k][i]] for every entry, unscaled. *)
Definition applyGradient_spec (net : Network) (g : Gradient) : Network :=
  {| weights :=
       mapi (fun w0 k =>
               mapi (fun w1 i =>
                       mapi (fun w j => (w - ofValue (get3 g.(nabla_w) k i j))%num) w1)
                    w0)
            net.(weights);
     biases :=
       mapi (fun b0 k =>
               mapi (fun b i => (b - ofValue (get2 g.(nabla_b) k i))%num) b0)
            net.(biases);
     activations := net.(activations) |}.

(** The spec's [gradientDescend] on the list of batches, each a list of
    inputs with the list of their targets: the batches in the order given,
    the mean gradient of each taken on the network as the batches before
    it left it. *)
Fixpoint gradientDescend_spec (net : Network)
  (batches : list (list (list num) * list (list num))) : Update :=
  match batches with
  | [] => (net, Ok tt)
  | (input, target) :: rest =>
      match getMeanGradient net input target with
      | Ok g => gradientDescend_spec (applyGradient_spec net g) rest
      | Throw e => (net, Throw e)
      end
  end.

(** * Properties *)

(** ** Arrays *)

Lemma assign_length {A} (xs : list A) (k : nat) (v : A) :
  length (assign xs k v) = length xs.
Proof.
  revert k; induction xs as [|x xs IH]; intros [|k]; simpl; auto.
Qed.

Lemma assign_get_same {A} (xs : list A) (k : nat) (v : A) :
  k < length xs -> get (assign xs k v) k = Some v.
Proof.
  unfold get; revert k; induction xs as [|x xs IH]; intros [|k]; simpl; intros H;
    try lia; auto.
  apply IH; lia.
Qed.

Lemma assign_get_other {A} (xs : list A) (k n : nat) (v : A) :
  n <> k -> get (assign xs k v) n = get xs n.
Proof.
  unfold get; revert k n; induction xs as [|x xs IH]; intros [|k] [|n]; simpl;
    intros H; try congruence; auto.
Qed.

Lemma assign_map_same {A B} (f : A -> B) (xs : list A) (k : nat) (x v : A) :
  get xs k = Some x -> f v = f x -> map f (assign xs k v) = map f xs.
Proof.
  unfold get; revert k; induction xs as [|y xs IH]; intros [|k]; simpl;
    intros Hk Hf; try discriminate; auto.
  - injection Hk as ->. now rewrite Hf.
  - f_equal. now apply IH.
Qed.

Lemma mapiM_from_length {A B} (f : A -> nat -> result B) xs :
  forall i ys, mapiM_from f i xs = Ok ys -> length ys = length xs.
Proof.
  induction xs as [|x xs IH]; simpl; intros i ys H.
  - now injection H as <-.
  - destruct (f x i) as [y|e]; simpl in H; try discriminate.
    destruct (mapiM_from f (S i) xs) as [ys'|e] eqn:E; simpl in H; try discriminate.
    injection H as <-. simpl. f_equal. eapply IH; eauto.
Qed.

Lemma mapiM_from_get {A B} (f : A -> nat -> result B) xs :
  forall i ys, mapiM_from f i xs = Ok ys ->
  forall n x, get xs n = Some x ->
  exists y, get ys n = Some y /\ f x (i + n) = Ok y.
Proof.
  unfold get; induction xs as [|x xs IH]; simpl; intros i ys H n x0 Hn.
  - destruct n; discriminate.
  - destruct (f x i) as [y|e] eqn:Ef; simpl in H; try discriminate.
    destruct (mapiM_from f (S i) xs) as [ys'|e] eqn:E; simpl in H; try discriminate.
    injection H as <-. destruct n as [|n]; simpl in *.
    + injection Hn as <-. exists y. rewrite Nat.add_0_r. auto.
    + destruct (IH _ _ E _ _ Hn) as (y' & Hy & Hf).
      exists y'. split; auto. now rewrite <- plus_n_Sm.
Qed.

(** A [map] whose callback returns on every element it is called on is
    the [map] of the values it returns. *)
Lemma mapiM_from_pure {A B} (f : A -> nat -> result B) (g : A -> nat -> B) xs :
  forall i,
  (forall n x, get xs n = Some x -> f x (i + n) = Ok (g x (i + n))) ->
  mapiM_from f i xs = Ok (mapi_from g i xs).
Proof.
  unfold get; induction xs as [|x xs IH]; simpl; intros i H; auto.
  rewrite (IH (S i)).
  - specialize (H 0 x eq_refl). rewrite Nat.add_0_r in H. now rewrite H.
  - intros n y Hn. specialize (H (S n) y Hn). now rewrite <- plus_n_Sm in H.
Qed.

Lemma mapi_from_length {A B} (f : A -> nat -> B) xs :
  forall i, length (mapi_from f i xs) = length xs.
Proof.
  induction xs; simpl; auto.
Qed.

Lemma reduceM_from_invariant {A B} (P : B -> Prop) (f : B -> A -> nat -> result B) xs :
  (forall acc x i acc', f acc x i = Ok acc' -> P acc -> P acc') ->
  forall i acc r, reduceM_from f i acc xs = Ok r -> P acc -> P r.
Proof.
  intros Hf; induction xs as [|x xs IH]; simpl; intros i acc r H HP.
  - now injection H as <-.
  - destruct (f acc x i) as [acc'|e] eqn:E; simpl in H; try discriminate.
    eapply IH; eauto.
Qed.

(** What a loop or a [map] throws is what its callback throws. *)
Lemma mapiM_from_throws {A B} (P : exn -> Prop) (f : A -> nat -> result B) xs :
  (forall x i e, f x i = Throw e -> P e) ->
  forall i e, mapiM_from f i xs = Throw e -> P e.
Proof.
  intros Hf; induction xs as [|x xs IH]; simpl; intros i e H; [discriminate|].
  destruct (f x i) as [y|e'] eqn:Ef; simpl in H.
  - destruct (mapiM_from f (S i) xs) as [ys|e'] eqn:E; simpl in H; [discriminate|].
    injection H as <-. eauto.
  - injection H as <-. eauto.
Qed.

Lemma reduceM_from_throws {A B} (P : exn -> Prop) (f : B -> A -> nat -> result B) xs :
  (forall acc x i e, f acc x i = Throw e -> P e) ->
  forall i acc e, reduceM_from f i acc xs = Throw e -> P e.
Proof.
  intros Hf; induction xs as [|x xs IH]; simpl; intros i acc e H; [discriminate|].
  destruct (f acc x i) as [acc'|e'] eqn:Ef; simpl in H.
  - eauto.
  - injection H as <-. eauto.
Qed.

Lemma for_up_throws {S} (P : exn -> Prop) (body : nat -> S -> result S) :
  (forall k s e, body k s = Throw e -> P e) ->
  forall count from s e, for_up count from body s = Throw e -> P e.
Proof.
  intros Hb; induction count as [|count IH]; simpl; intros from s e H; [discriminate|].
  destruct (body from s) as [s'|e'] eqn:E; simpl in H.
  - eauto.
  - injection H as <-. eauto.
Qed.

Lemma for_up_invariant {S} (P : S -> Prop) (body : nat -> S -> result S) :
  (forall k s s', body k s = Ok s' -> P s -> P s') ->
  forall count from s s', for_up count from body s = Ok s' -> P s -> P s'.
Proof.
  intros Hb; induction count as [|count IH]; simpl; intros from s s' H HP.
  - now injection H as <-.
  - destruct (body from s) as [s1|e] eqn:E; simpl in H; try discriminate.
    eapply IH; eauto.
Qed.

Lemma for_down_invariant {S} (P : S -> Prop) (body : nat -> S -> result S) :
  (forall k s s', body k s = Ok s' -> P s -> P s') ->
  forall top s s', for_down top body s = Ok s' -> P s -> P s'.
Proof.
  intros Hb; induction top as [|k IH]; simpl; intros s s' H HP.
  - now injection H as <-.
  - destruct (body k s) as [s1|e] eqn:E; simpl in H; try discriminate.
    eapply IH; eauto.
Qed.

(** ** Construction *)

Section ConstructionShape.

Variable Math_random : nat -> num.

Lemma Array_from_length {A} (f : Rand A) (n c : nat) :
  length (fst (Array_from n f c)) = n.
Proof.
  revert c; induction n as [|n IH]; intros c; simpl; auto.
  destruct (f c) as [x c1]. specialize (IH c1).
  destruct (Array_from n f c1) as [xs c2]. simpl in *. now rewrite IH.
Qed.

Lemma Array_from_In {A} (f : Rand A) (n c : nat) (x : A) :
  In x (fst (Array_from n f c)) -> exists c', x = fst (f c').
Proof.
  revert c; induction n as [|n IH]; intros c; simpl; [tauto|].
  destruct (f c) as [y c1] eqn:Ef. specialize (IH c1).
  destruct (Array_from n f c1) as [xs c2]. simpl in *.
  intros [<-|H]; auto.
  exists c. now rewrite Ef.
Qed.

Lemma mapiR_from_length {A B} (f : A -> nat -> Rand B) (xs : list A) :
  forall i c, length (fst (mapiR_from f i xs c)) = length xs.
Proof.
  induction xs as [|x xs IH]; intros i c; simpl; auto.
  destruct (f x i c) as [y c1]. specialize (IH (S i) c1).
  destruct (mapiR_from f (S i) xs c1) as [ys c2]. simpl in *. now rewrite IH.
Qed.

Lemma mapiR_from_get {A B} (f : A -> nat -> Rand B) (xs : list A) :
  forall i c n x,
    get xs n = Some x ->
    exists c', get (fst (mapiR_from f i xs c)) n = Some (fst (f x (i + n) c')).
Proof.
  unfold get; induction xs as [|x xs IH]; intros i c n x0 Hn.
  - destruct n; discriminate.
  - simpl. destruct (f x i c) as [y c1] eqn:Ef.
    specialize (IH (S i) c1).
    destruct (mapiR_from f (S i) xs c1) as [ys c2]. simpl in *.
    destruct n as [|n]; simpl in *.
    + injection Hn as <-. exists c. now rewrite Nat.add_0_r, Ef.
    + destruct (IH _ _ Hn) as (c' & Hc). exists c'.
      now rewrite <- plus_n_Sm.
Qed.

(** Opens [constructor layers]: names the two arrays the two [map]s give,
    with their lengths and their entries. *)
Ltac open_constructor layers :=
  unfold constructor;
  match goal with
  | |- context [mapiR_from ?f 0 layers 0] =>
      let c1 := fresh "c1" in
      pose proof (mapiR_from_length f layers 0 0) as Hlw;
      pose proof (mapiR_from_get f layers 0 0) as Hgw;
      destruct (mapiR_from f 0 layers 0) as [ws c1];
      match goal with
      | |- context [mapiR_from ?g 0 layers c1] =>
          pose proof (mapiR_from_length g layers 0 c1) as Hlb;
          pose proof (mapiR_from_get g layers 0 c1) as Hgb;
          destruct (mapiR_from g 0 layers c1) as [bs c2]
      end
  end;
  cbn [weights biases activations fst] in *.

Lemma constructor_lengths (layers : list (nat * Activation)) :
  let net := constructor Math_random layers in
  length net.(weights) = length layers /\
  length net.(biases) = length layers /\
  length net.(activations) = length layers.
Proof.
  intros net. subst net. open_constructor layers. rewrite length_map. auto.
Qed.

Lemma constructor_weights_0 (layers : list (nat * Activation)) :
  layers <> [] -> get (constructor Math_random layers).(weights) 0 = Some [].
Proof.
  intros Hne. open_constructor layers.
  destruct layers as [|[n0 act0] rest]; [congruence|].
  destruct (Hgw 0 (n0, act0) eq_refl) as (c' & ->). reflexivity.
Qed.

Lemma constructor_biases_0 (layers : list (nat * Activation)) :
  layers <> [] -> get (constructor Math_random layers).(biases) 0 = Some [].
Proof.
  intros Hne. open_constructor layers.
  destruct layers as [|[n0 act0] rest]; [congruence|].
  destruct (Hgb 0 (n0, act0) eq_refl) as (c' & ->). reflexivity.
Qed.

Lemma constructor_layer (layers : list (nat * Activation)) (k : nat) :
  1 <= k -> k < length layers ->
  let net := constructor Math_random layers in
  exists wk bk,
    get net.(weights) k = Some wk /\
    get net.(biases) k = Some bk /\
    length wk = size layers k /\
    (forall row, In row wk -> length row = size layers (k - 1)) /\
    length bk = size layers k.
Proof.
  intros Hk1 Hk net. subst net. open_constructor layers.
  destruct (get layers k) as [[n act]|] eqn:Ek;
    [|apply nth_error_None in Ek; lia].
  destruct (Hgw _ _ Ek) as (cw & Hw). destruct (Hgb _ _ Ek) as (cb & Hb).
  destruct k as [|k']; [lia|]. simpl in Hw, Hb.
  eexists; eexists. split; [exact Hw|]. split; [exact Hb|].
  unfold size. rewrite Ek.
  replace (S k' - 1) with k' by lia.
  split; [apply Array_from_length|]. split; [|apply Array_from_length].
  intros row Hin. apply Array_from_In in Hin. destruct Hin as (c' & ->).
  rewrite Array_from_length. unfold get.
  destruct (nth_error layers k') as [[p actp]|]; reflexivity.
Qed.

(** C9: for a topology of at least one layer the constructor gives
    [weights], [biases] and [activations] one entry per layer, [weights[0]]
    and [biases[0]] empty, and for every layer [k >= 1] a matrix
    [weights[k]] of [size(k)] rows of length [size(k - 1)] and a vector
    [biases[k]] of length [size(k)]. *)
Theorem constructor_shape (layers : list (nat * Activation)) :
  layers <> [] ->
  let net := constructor Math_random layers in
  length net.(weights) = length layers /\
  length net.(biases) = length layers /\
  length net.(activations) = length layers /\
  get net.(weights) 0 = Some [] /\
  get net.(biases) 0 = Some [] /\
  forall k, 1 <= k -> k < length layers ->
    exists wk bk,
      get net.(weights) k = Some wk /\
      get net.(biases) k = Some bk /\
      length wk = size layers k /\
      (forall row, In row wk -> length row = size layers (k - 1)) /\
      length bk = size layers k.
Proof.
  intros Hne net. subst net.
  destruct (constructor_lengths layers) as (Hw & Hb & Ha).
  repeat split; auto.
  - now apply constructor_weights_0.
  - now apply constructor_biases_0.
  - intros k Hk1 Hk. now apply constructor_layer.
Qed.

End ConstructionShape.

(** The shape of [new Network([2, linear], [1, linear])]. *)
Lemma constructor_shape_witness :
  let layers := [(2, linear); (1, linear)] in
  let net := constructor draws layers in
  length net.(weights) = length layers /\
  length net.(biases) = length layers /\
  length net.(activations) = length layers /\
  get net.(weights) 0 = Some [] /\
  get net.(biases) 0 = Some [] /\
  forall k, 1 <= k -> k < length layers ->
    exists wk bk,
      get net.(weights) k = Some wk /\
      get net.(biases) k = Some bk /\
      length wk = size layers k /\
      (forall row, In row wk -> length row = size layers (k - 1)) /\
      length bk = size layers k.
Proof.
  apply (constructor_shape draws (layers := [(2, linear); (1, linear)])).
  discriminate.
Defined.

(** ** The guard on the input *)

(** What the guard of [getOutput], [getCost] and [getGradient] compares
    the input with: the length of [biases[0]]. *)
Lemma checkInput_rejects (net : Network) (b0 input : list num) :
  get net.(biases) 0 = Some b0 ->
  length b0 <> length input ->
  checkInput net input = Throw (InputLengthError (length b0)).
Proof.
  intros H0 Hlen. unfold checkInput. rewrite H0. simpl.
  apply Nat.eqb_neq in Hlen. now rewrite Hlen.
Qed.

Lemma getOutput_rejects (net : Network) (b0 input : list num) :
  get net.(biases) 0 = Some b0 ->
  length b0 <> length input ->
  getOutput net input = Throw (InputLengthError (length b0)).
Proof.
  intros H0 Hlen. unfold getOutput.
  now rewrite (checkInput_rejects net input H0 Hlen).
Qed.

Lemma prop_throws {A} (v : option A) (e : exn) :
  prop v = Throw e -> e = TypeError_undefined.
Proof.
  destruct v; simpl; intros H; [discriminate|now injection H].
Qed.

Lemma weightedSum_throws (a : list (list num)) (ws : list (list (list num)))
  (k j : nat) (e : exn) :
  weightedSum a ws k j = Throw e -> e = TypeError_undefined.
Proof.
  unfold weightedSum. intros H.
  destruct (prop (get ws k)) as [wk|e1] eqn:E1; simpl in H;
    [|injection H as <-; eapply prop_throws; eauto].
  destruct (prop (get wk j)) as [wkj|e2] eqn:E2; simpl in H;
    [|injection H as <-; eapply prop_throws; eauto].
  revert H. unfold reduceM.
  apply (reduceM_from_throws (fun e => e = TypeError_undefined)).
  intros acc x i e0 H.
  destruct (prop (get_pred a k)) as [prev|e3] eqn:E3; simpl in H; [discriminate|].
  injection H as <-. eapply prop_throws; eauto.
Qed.

(** Past the guard, [getOutput] throws nothing but the runtime's
    [TypeError]. *)
Lemma getOutput_loop_throws (net : Network) (count from : nat)
  (a : list (list num)) (e : exn) :
  for_up count from
    (fun k a =>
       bk <- prop (get net.(biases) k) ;;
       ak <- mapiM (fun b j =>
                      s <- weightedSum a net.(weights) k j ;;
                      let z := (s + b)%num in
                      act <- prop (get net.(activations) k) ;;
                      Ok (act.(activation) z))
                   bk ;;
       Ok (assign a k ak))
    a = Throw e ->
  e = TypeError_undefined.
Proof.
  apply (for_up_throws (fun e => e = TypeError_undefined)). intros k s e0 H.
  destruct (prop (get (biases net) k)) as [bk|e1] eqn:E1; simpl in H;
    [|injection H as <-; eapply prop_throws; eauto].
  match type of H with
  | bind ?c _ = _ => destruct c as [ak|e2] eqn:E2; simpl in H; [discriminate|]
  end.
  injection H as <-. revert E2. unfold mapiM.
  apply (mapiM_from_throws (fun e => e = TypeError_undefined)).
  intros b j e3 H.
  destruct (weightedSum s (weights net) k j) as [z|e4] eqn:E4; simpl in H;
    [|injection H as <-; eapply weightedSum_throws; eauto].
  destruct (prop (get (activations net) k)) as [act|e5] eqn:E5; simpl in H;
    [discriminate|].
  injection H as <-. eapply prop_throws; eauto.
Qed.

(** When [getOutput] returns, it returns one vector per layer. *)
Lemma getOutput_length (net : Network) (input : list num) (a : list (list num)) :
  getOutput net input = Ok a -> length a = length net.(biases).
Proof.
  unfold getOutput. intros H. bind_ok H. cbv zeta in H.
  eapply (for_up_invariant (fun a => length a = length net.(biases))); [|exact H|].
  - intros k s s' Hs Hl. cbv beta in Hs. bind_ok Hs. injection Hs as <-.
    now rewrite assign_length.
  - now rewrite assign_length, length_map.
Qed.

(** The dimension mismatch error of [getOutput] is thrown exactly when the
    input's length differs from the length of [biases[0]]. *)
Lemma getOutput_input_error_iff (net : Network) (b0 input : list num) (n : nat) :
  get net.(biases) 0 = Some b0 ->
  getOutput net input = Throw (InputLengthError n) <->
  length b0 <> length input /\ n = length b0.
Proof.
  intros H0. split.
  - unfold getOutput, checkInput. rewrite H0. cbn [prop bind].
    destruct (length b0 =? length input) eqn:E; cbn [bind]; intros H.
    + apply getOutput_loop_throws in H. discriminate.
    + apply Nat.eqb_neq in E. injection H as <-. auto.
  - intros [Hne ->]. now apply getOutput_rejects.
Qed.

(** A network the constructor built has an empty [biases[0]], whatever
    the size of its input layer: [getOutput] throws the dimension mismatch
    error exactly on the inputs that are not empty. *)
Lemma constructor_guard (Math_random : nat -> num) (layers : list (nat * Activation))
  (input : list num) :
  layers <> [] ->
  (exists n, getOutput (constructor Math_random layers) input
             = Throw (InputLengthError n)) <->
  input <> [].
Proof.
  intros Hne.
  pose proof (constructor_biases_0 Math_random Hne) as H0.
  split.
  - intros [n H]. apply (getOutput_input_error_iff _ input n H0) in H.
    destruct H as [H _]. intros ->. now apply H.
  - intros Hi. exists 0. apply (getOutput_input_error_iff _ input 0 H0).
    split; [|reflexivity]. destruct input; [congruence|discriminate].
Qed.

(** C1, at the failing input: on the network [new Network([2, linear],
    [1, linear])], whatever the random parameters, [getOutput([1, 2])]
    throws the dimension mismatch error (against length 0, the length of
    [biases[0]]) although the input has length [size(0) = 2], and
    [getOutput([])] returns although the empty input does not have that
    length. *)
Theorem getOutput_guard_is_length_zero :
  forall Math_random : nat -> num,
    let layers := [(2, linear); (1, linear)] in
    size layers 0 = 2 /\
    getOutput (constructor Math_random layers) [1%float; 2%float]
      = Throw (InputLengthError 0) /\
    exists a, getOutput (constructor Math_random layers) [] = Ok a.
Proof.
  intros Math_random layers. repeat split.
  eexists. vm_compute. reflexivity.
Qed.

(** ** The scenario of the spec *)

(** C3, at the scenario: the three calls of the scenario all throw the
    dimension mismatch error of the guard on the input, so none returns
    the value the scenario lists. *)
Theorem scenario_calls_throw :
  forall Math_random : nat -> num,
    let net := scenario Math_random in
    getOutput net [1%float; 2%float] = Throw (InputLengthError 0) /\
    getCost net [1%float; 2%float] [5%float] = Throw (InputLengthError 0) /\
    getGradient net [1%float; 2%float] [5%float] = Throw (InputLengthError 0).
Proof.
  intros Math_random net. repeat split; vm_compute; reflexivity.
Qed.

(** With [biases[0]] set to two numbers the guard lets the input through:
    the output and the gradient of layer 1 are the scenario's, the cost
    is not. *)
Lemma scenario_open_calls :
  forall Math_random : nat -> num,
    let net := scenario_open Math_random in
    getOutput net [1%float; 2%float] = Ok [[1%float; 2%float]; [3%float]] /\
    getCost net [1%float; 2%float] [5%float] = Ok 3%float /\
    getGradient net [1%float; 2%float] [5%float]
      = Ok {| nabla_w := [[]; [[(-4)%float; (-8)%float]]];
              nabla_b := [[(-4)%float; (-8)%float]; [(-4)%float]] |}.
Proof.
  intros Math_random net. repeat split; vm_compute; reflexivity.
Qed.

(** ** The cost *)

(** The [reduce] of [getCost] has no initial value: the first output
    enters the sum as it is, without its target and unsquared. *)
Lemma getCost_first_output_unsquared (target : list num) (o : num) (os : list num) :
  reduce1M (fun sum output i =>
              Ok (sum + pow2 (output - ofValue (get target i)))%num)
           (o :: os)
  = reduceM_from (fun sum output i =>
                    Ok (sum + pow2 (output - ofValue (get target i)))%num)
                 1 o os.
Proof. reflexivity. Qed.

(** With one output neuron the cost is the output itself, whatever the
    target. *)
Lemma getCost_one_output (net : Network) (input target : list num)
  (a : list (list num)) (o : num) :
  checkInput net input = Ok tt ->
  checkTarget net target = Ok tt ->
  getOutput net input = Ok a ->
  get_pred a (length net.(biases)) = Some [o] ->
  getCost net input target = Ok o.
Proof.
  intros H1 H2 H3 H4. unfold getCost. rewrite H1, H2, H3. cbn [bind].
  rewrite H4. reflexivity.
Qed.

(** C2, at the failing inputs: in the scenario [getCost([1, 2], [5])]
    throws; once the guard lets the input through it returns the output 3
    itself, where the sum of squared errors is 4; and on a network built by
    the constructor alone, [getCost([], [0])] returns the output 0.125,
    where the sum of squared errors is 0.015625. *)
Theorem getCost_is_not_sum_of_squares :
  (forall Math_random : nat -> num,
     getCost (scenario Math_random) [1%float; 2%float] [5%float]
       = Throw (InputLengthError 0) /\
     getOutput (scenario_open Math_random) [1%float; 2%float]
       = Ok [[1%float; 2%float]; [3%float]] /\
     getCost (scenario_open Math_random) [1%float; 2%float] [5%float] = Ok 3%float /\
     cost_spec [3%float] [5%float] = 4%float) /\
  getOutput narrow [] = Ok [[]; [0.25%float]; [0.125%float]] /\
  getCost narrow [] [0%float] = Ok 0.125%float /\
  cost_spec [0.125%float] [0%float] = 0.015625%float.
Proof.
  repeat split; vm_compute; reflexivity.
Qed.

(** ** The propagated error *)

(** A layer of one neuron: the [reduce] returns its only row, the row of
    [nabla_w[k]], and no weight enters the propagated error. *)
Lemma propagate_single (row nb : list num) : propagate [row] nb = Ok row.
Proof. reflexivity. Qed.

(** C4, at the failing inputs. In the scenario with the guard open,
    [delta[1] = [-4]] and [weights[1] = [[1, 1]]]: the backward pass leaves
    [dCda[0] = [-4, -8]], the row of [nabla_w[1]], where the formula gives
    [[-4, -4]]. On a network built by the constructor alone,
    [delta[2] = [0.25]] and [weights[2] = [[0.5]]]: the pass leaves
    [dCda[1] = [0.0625]] where the formula gives [[0.125]]. *)
Theorem backward_propagates_nabla_w_rows :
  (forall Math_random : nat -> num,
     exists st,
       backward (scenario_open Math_random) [1%float; 2%float] [5%float] = Ok st /\
       get (weights (scenario_open Math_random)) 1 = Some [[1%float; 1%float]] /\
       get st.(st_nabla_b) 1 = Some [(-4)%float] /\
       get st.(st_dCda) 0 = Some [(-4)%float; (-8)%float] /\
       propagate_spec [(-4)%float] [[1%float; 1%float]] 2 = [(-4)%float; (-4)%float]) /\
  (exists st,
     backward narrow [] [0%float] = Ok st /\
     get (weights narrow) 2 = Some [[0.5%float]] /\
     get st.(st_nabla_b) 2 = Some [0.25%float] /\
     get st.(st_dCda) 1 = Some [0.0625%float] /\
     propagate_spec [0.25%float] [[0.5%float]] 1 = [0.125%float]).
Proof.
  split; [intros Math_random|]; eexists; repeat split; vm_compute; reflexivity.
Qed.

(** ** The shape of a gradient *)

Lemma mapiM_from_map {A B C} (f : A -> nat -> result B) (h1 : B -> C) (h2 : A -> C) :
  (forall x i y, f x i = Ok y -> h1 y = h2 x) ->
  forall xs i ys, mapiM_from f i xs = Ok ys -> map h1 ys = map h2 xs.
Proof.
  intros Hf; induction xs as [|x xs IH]; simpl; intros i ys H.
  - now injection H as <-.
  - bind_ok H. injection H as <-. simpl. f_equal; eauto.
Qed.

Lemma mapiM_from_Forall {A B} (f : A -> nat -> result B) (P : B -> Prop) :
  (forall x i y, f x i = Ok y -> P y) ->
  forall xs i ys, mapiM_from f i xs = Ok ys -> Forall P ys.
Proof.
  intros Hf; induction xs as [|x xs IH]; simpl; intros i ys H.
  - injection H as <-. constructor.
  - bind_ok H. injection H as <-. constructor; eauto.
Qed.

Lemma map_eq_get {A B C} (f : A -> C) (g : B -> C) (xs : list A) (ys : list B) k y :
  map f xs = map g ys -> get ys k = Some y ->
  exists x, get xs k = Some x /\ f x = g y.
Proof.
  unfold get; intros Hm Hy.
  assert (H : nth_error (map f xs) k = Some (g y))
    by (rewrite Hm; now apply map_nth_error).
  destruct (nth_error xs k) as [x|] eqn:Ex.
  - exists x. split; auto.
    rewrite (map_nth_error f _ _ Ex) in H. congruence.
  - apply nth_error_None in Ex.
    assert (nth_error (map f xs) k = None)
      by (apply nth_error_None; now rewrite length_map).
    congruence.
Qed.

(** A [map] of [map]s keeps the shape of the matrix it runs over. *)
Lemma mapiM_rows_shape {A B} (f : nat -> A -> nat -> result B) (m : list (list A)) :
  forall i m', mapiM_from (fun row i => mapiM (f i) row) i m = Ok m' ->
  shape2 m' = shape2 m.
Proof.
  intros i m'. unfold shape2.
  apply mapiM_from_map. intros row n row' H.
  now apply mapiM_from_length in H.
Qed.

Lemma shape3_zero (w : list (list (list num))) :
  shape3 (map (fun layer => map (fun neuron => map (fun _ => zero) neuron) layer) w)
  = shape3 w.
Proof.
  unfold shape3, shape2. rewrite map_map. apply map_ext. intros layer.
  rewrite map_map. apply map_ext. intros neuron. apply length_map.
Qed.

(** One turn of the backward loop keeps [nabla_w] in the shape of
    [weights] and [nabla_b] at its length. *)
Lemma backStep_shape (net : Network) (a : list (list num)) (k : nat) (st st' : BackState) :
  backStep net a k st = Ok st' ->
  shape3 st.(st_nabla_w) = shape3 net.(weights) /\
    length st.(st_nabla_b) = length net.(biases) ->
  shape3 st'.(st_nabla_w) = shape3 net.(weights) /\
    length st'.(st_nabla_b) = length net.(biases).
Proof.
  intros H [Hw Hb]. unfold backStep in H. bind_ok H. cbv zeta in H.
  match goal with
  | E : prop (get (weights net) k) = Ok ?wk |- _ =>
      unfold prop in E; destruct (get (weights net) k) as [wk'|] eqn:Ek;
      [injection E as ->|discriminate E]
  end.
  match goal with
  | E : mapiM _ ?wk = Ok ?nw |- _ =>
      assert (Hs : shape2 nw = shape2 wk) by (apply (mapiM_rows_shape _ _ _ E))
  end.
  destruct (map_eq_get _ _ _ _ _ Hw Ek) as (x & Hx & Hxs).
  assert (Hw' : forall nw, shape2 nw = shape2 x ->
                  shape3 (assign (st_nabla_w st) k nw) = shape3 (weights net)).
  { intros nw Hnw. rewrite <- Hw. unfold shape3. eapply assign_map_same; eauto. }
  destruct k as [|k'].
  - injection H as <-. cbn [st_nabla_w st_nabla_b]. rewrite assign_length.
    split; auto. apply Hw'. congruence.
  - bind_ok H. injection H as <-. cbn [st_nabla_w st_nabla_b]. rewrite assign_length.
    split; auto. apply Hw'. congruence.
Qed.

Lemma backward_shape (net : Network) (input target : list num) (st : BackState) :
  backward net input target = Ok st ->
  shape3 st.(st_nabla_w) = shape3 net.(weights) /\
    length st.(st_nabla_b) = length net.(biases).
Proof.
  intros H. unfold backward in H. bind_ok H.
  eapply (for_down_invariant
            (fun s => shape3 s.(st_nabla_w) = shape3 net.(weights) /\
                      length s.(st_nabla_b) = length net.(biases)));
    [|exact H|].
  - intros k s s'. apply backStep_shape.
  - match goal with E : backInit _ _ _ = Ok _ |- _ => unfold backInit in E; bind_ok E;
      injection E as <- end.
    cbn [st_nabla_w st_nabla_b]. split; [apply shape3_zero|apply length_map].
Qed.

(** When [getGradient] returns, [nabla_w] has the shape of [weights] and
    [nabla_b] one entry per layer. *)
Lemma getGradient_shape (net : Network) (input target : list num) (g : Gradient) :
  getGradient net input target = Ok g ->
  shape3 g.(nabla_w) = shape3 net.(weights) /\
    length g.(nabla_b) = length net.(biases).
Proof.
  intros H. unfold getGradient in H. bind_ok H. injection H as <-.
  cbn [nabla_w nabla_b]. eapply backward_shape; eauto.
Qed.

Lemma addGradient_shape (sum g s' : Gradient) :
  addGradient sum g = Ok s' ->
  shape3 s'.(nabla_w) = shape3 sum.(nabla_w) /\
    length s'.(nabla_b) = length sum.(nabla_b).
Proof.
  intros H. unfold addGradient in H. bind_ok H. injection H as <-.
  cbn [nabla_w nabla_b]. split.
  - unfold shape3. eapply mapiM_from_map; [|eassumption].
    intros layer k layer' H. cbv beta in H. eapply mapiM_rows_shape. exact H.
  - eapply mapiM_from_length; eassumption.
Qed.

(** When [getMeanGradient] returns, [nabla_w] has the shape of [weights]
    and [nabla_b] one entry per layer. *)
Lemma getMeanGradient_shape (net : Network) (input target : list (list num))
  (g : Gradient) :
  getMeanGradient net input target = Ok g ->
  shape3 g.(nabla_w) = shape3 net.(weights) /\
    length g.(nabla_b) = length net.(biases).
Proof.
  intros H. unfold getMeanGradient in H.
  destruct (negb (length input =? length target)); [discriminate|].
  cbv zeta in H. bind_ok H. injection H as <-. cbn [nabla_w nabla_b].
  match goal with
  | E : reduce1M _ ?gs = Ok ?tot |- _ =>
      assert (Ht : shape3 tot.(nabla_w) = shape3 net.(weights) /\
                   length tot.(nabla_b) = length net.(biases))
  end.
  { match goal with E : mapiM _ input = Ok _ |- _ =>
      eapply mapiM_from_Forall
        with (P := fun g => shape3 g.(nabla_w) = shape3 net.(weights) /\
                            length g.(nabla_b) = length net.(biases)) in E end.
    2:{ intros x i y Hy. cbv beta in Hy. bind_ok Hy.
        eapply getGradient_shape; eauto. }
    match goal with E : reduce1M _ ?gs = Ok _ |- _ =>
      destruct gs as [|g0 gs]; [discriminate E|]; unfold reduce1M in E end.
    match goal with E : Forall _ (_ :: _) |- _ => inversion E; subst end.
    eapply (reduceM_from_invariant
              (fun g => shape3 g.(nabla_w) = shape3 net.(weights) /\
                        length g.(nabla_b) = length net.(biases)));
      [|eassumption|assumption].
    intros acc x i acc' Ha [Hw Hb]. apply addGradient_shape in Ha.
    destruct Ha as [Hw' Hb']. split; congruence. }
  destruct Ht as [Hw Hb]. split.
  - rewrite <- Hw. unfold shape3, shape2. rewrite map_map. apply map_ext.
    intros layer. rewrite map_map. apply map_ext. intros neuron. apply length_map.
  - rewrite length_map. exact Hb.
Qed.

(** *** The entry [nabla_b[0]] *)

Lemma backStep_nabla_b_length (net : Network) (a : list (list num)) (k : nat)
  (st st' : BackState) :
  backStep net a k st = Ok st' ->
  length st'.(st_nabla_b) = length st.(st_nabla_b).
Proof.
  intros H. unfold backStep in H. bind_ok H. cbv zeta in H.
  destruct k as [|k'].
  - injection H as <-. cbn [st_nabla_b]. apply assign_length.
  - bind_ok H. injection H as <-. cbn [st_nabla_b]. apply assign_length.
Qed.

(** The propagated error is as long as the first row it folds. *)
Lemma propagate_length (nwk : list (list num)) (nb d : list num) :
  propagate nwk nb = Ok d ->
  exists row rest, nwk = row :: rest /\ length d = length row.
Proof.
  unfold propagate, reduce1M. destruct nwk as [|row rest]; [discriminate|].
  intros H. exists row, rest. split; [reflexivity|].
  eapply (reduceM_from_invariant (fun s => length s = length row));
    [|exact H|reflexivity].
  intros acc x i acc' Ha Hl. injection Ha as <-.
  unfold mapi. now rewrite mapi_from_length.
Qed.

(** The last two turns of the backward loop: turn 1 leaves in [dCda[0]] a
    vector as long as the rows of [weights[1]], and turn 0 writes a vector
    of that length to [nabla_b[0]]. *)
Lemma backward_last_turns (net : Network) (a : list (list num)) (st st' : BackState) :
  for_down 2 (backStep net a) st = Ok st' ->
  0 < length st.(st_nabla_b) ->
  exists row rest nb0,
    get net.(weights) 1 = Some (row :: rest) /\
    get st'.(st_nabla_b) 0 = Some nb0 /\
    length nb0 = length row.
Proof.
  intros H Hl. cbn [for_down] in H.
  destruct (backStep net a 1 st) as [s1|e] eqn:E1; cbn [bind] in H; [|discriminate].
  destruct (backStep net a 0 s1) as [s0|e] eqn:E0; cbn [bind] in H; [|discriminate].
  injection H as <-.
  pose proof (backStep_nabla_b_length _ _ _ _ E1) as Hl1.
  unfold backStep in E1. bind_ok E1. cbv zeta in E1. bind_ok E1. injection E1 as <-.
  unfold backStep in E0. cbn [st_dCda st_nabla_w st_nabla_b] in E0, Hl1.
  bind_ok E0. cbv zeta in E0. injection E0 as <-. cbn [st_nabla_b].
  repeat match goal with
    | E : prop ?v = Ok _ |- _ =>
        let E' := fresh "G" in
        destruct v eqn:E'; cbn [prop] in E; [injection E as <-|discriminate E]
    end.
  match goal with E : propagate _ _ = Ok ?d |- _ =>
    apply propagate_length in E; destruct E as (nrow & nrest & -> & Hd) end.
  match goal with
  | E : mapiM _ ?wk = Ok (nrow :: nrest), G : get (weights net) 1 = Some ?wk |- _ =>
      pose proof (mapiM_rows_shape _ _ _ E) as Hs;
      destruct wk as [|row rest]; [discriminate Hs|]; injection Hs as Hrow _
  end.
  match goal with
  | G : get (assign _ 0 ?d) 0 = Some ?d', E : mapiM _ ?d' = Ok ?nb |- _ =>
      exists row, rest, nb; split; [reflexivity|]; split;
      [ apply assign_get_same; rewrite assign_length; lia
      | apply mapiM_from_length in E; rewrite E;
        rewrite assign_get_same in G;
        [ injection G as <-; congruence
        | match goal with G1 : get ?dC 1 = Some _ |- _ =>
            assert (1 < length dC)
              by (apply nth_error_Some; unfold get in G1; congruence);
            lia end ] ]
  end.
Qed.

(** A loop that returns has run its last [m] turns from some state. *)
Lemma for_down_tail {St} (P : St -> Prop) (body : nat -> St -> result St) (m : nat) :
  (forall k s s', body k s = Ok s' -> P s -> P s') ->
  forall top s s',
    m <= top -> for_down top body s = Ok s' -> P s ->
    exists sm, P sm /\ for_down m body sm = Ok s'.
Proof.
  intros Hb; induction top as [|t IH]; intros s s' Hm H HP.
  - assert (m = 0) by lia. subst m. exists s. auto.
  - destruct (Nat.eq_dec m (S t)) as [->|Hne]; [exists s; auto|].
    cbn [for_down] in H.
    destruct (body t s) as [s1|e] eqn:E; cbn [bind] in H; [|discriminate].
    apply (IH s1 s'); eauto. lia.
Qed.

(** On a network of two layers or more, whenever [getGradient] returns,
    [nabla_b[0]] is as long as the rows of [weights[1]]. *)
Lemma getGradient_nabla_b_0 (net : Network) (input target : list num) (g : Gradient) :
  getGradient net input target = Ok g ->
  2 <= length net.(biases) ->
  exists row rest nb0,
    get net.(weights) 1 = Some (row :: rest) /\
    get g.(nabla_b) 0 = Some nb0 /\
    length nb0 = length row.
Proof.
  intros H HL. unfold getGradient in H. bind_ok H. injection H as <-.
  cbn [nabla_b].
  match goal with E : backward _ _ _ = Ok _ |- _ =>
    unfold backward in E; bind_ok E; rename E into Hloop end.
  match goal with E : backInit _ _ _ = Ok ?st0 |- _ =>
    assert (H0 : length st0.(st_nabla_b) = length net.(biases))
      by (unfold backInit in E; bind_ok E; injection E as <-;
          cbn [st_nabla_b]; apply length_map)
  end.
  destruct (@for_down_tail BackState
              (fun st => length st.(st_nabla_b) = length net.(biases))
              (backStep net _) 2
              (fun k s s' Hs Hl =>
                 eq_trans (backStep_nabla_b_length _ _ _ _ Hs) Hl)
              _ _ _ HL Hloop H0) as (s2 & Hs2 & Htail).
  eapply backward_last_turns; [exact Htail|lia].
Qed.

(** A network the constructor built with two layers or more: whenever
    [getGradient] returns, [nabla_b[0]] has [size(0)] entries, and
    [biases[0]] has none. *)
Lemma constructor_nabla_b_0 (Math_random : nat -> num)
  (layers : list (nat * Activation)) (input target : list num) (g : Gradient) :
  2 <= length layers ->
  getGradient (constructor Math_random layers) input target = Ok g ->
  get (constructor Math_random layers).(biases) 0 = Some [] /\
  exists nb0, get g.(nabla_b) 0 = Some nb0 /\ length nb0 = size layers 0.
Proof.
  intros HL H.
  assert (Hne : layers <> []) by (destruct layers; [simpl in HL; lia|discriminate]).
  split; [now apply constructor_biases_0|].
  destruct (constructor_lengths Math_random layers) as (_ & Hb & _).
  destruct (getGradient_nabla_b_0 _ _ _ H) as (row & rest & nb0 & Hw & Hg & Hlen);
    [lia|].
  destruct (constructor_layer Math_random layers (k := 1)) as
    (wk & bk & Hwk & _ & _ & Hrows & _); [lia|lia|].
  exists nb0. split; [exact Hg|]. rewrite Hlen.
  rewrite Hw in Hwk. injection Hwk as <-. apply Hrows. now left.
Qed.

(** C5, at the failing inputs: in the scenario [getGradient([1, 2], [5])]
    throws, so no gradient is returned for the valid pair; for the input
    the guard accepts, [nabla_w] has the shape of [weights] but
    [nabla_b[0]] has two entries where [biases[0]] has none. *)
Theorem getGradient_nabla_b_0_not_empty :
  forall Math_random : nat -> num,
    let net := scenario Math_random in
    getGradient net [1%float; 2%float] [5%float] = Throw (InputLengthError 0) /\
    exists g,
      getGradient net [] [5%float] = Ok g /\
      shape3 g.(nabla_w) = shape3 net.(weights) /\
      shape2 net.(biases) = [0; 1] /\
      shape2 g.(nabla_b) = [2; 1].
Proof.
  intros Math_random net. split; [|eexists; repeat split]; vm_compute; reflexivity.
Qed.

(** ** An empty batch *)

(** C10: for every network, [getMeanGradient([], [])] passes the check of
    the two lengths and then throws: the [reduce] that sums the gradients
    has no initial value and nothing to start from. *)
Theorem getMeanGradient_empty_batch :
  forall net : Network,
    (length (@nil (list num)) =? length (@nil (list num))) = true /\
    getMeanGradient net [] [] = Throw TypeError_reduce_empty.
Proof.
  intros net. split; reflexivity.
Qed.

(** ** A batch of one example *)

Lemma div_eucl_exact (a q : Z) :
  a = (4503599627370496 * q)%Z -> Z.div_eucl a 4503599627370496 = (q, 0%Z).
Proof.
  intros ->.
  pose proof (Z_div_mod (4503599627370496 * q) 4503599627370496 eq_refl) as H.
  destruct (Z.div_eucl (4503599627370496 * q) 4503599627370496) as [q' r].
  destruct H as [H1 H2]. f_equal; lia.
Qed.

(** The binary64 quotient of a finite number by 1 (mantissa [2^52],
    exponent [-52]) is exact: the division leaves the mantissa, or twice
    the mantissa one exponent down, with no remainder, and the rounding has
    nothing to round. *)
Lemma SFdiv_finite_one (s : bool) (m : positive) (e : Z) :
  bounded prec emax m e = true ->
  SFdiv prec emax (S754_finite s m e) (S754_finite false 4503599627370496 (-52))
  = S754_finite s m e.
Proof.
  intros Hb. unfold bounded, canonical_mantissa in Hb.
  apply andb_prop in Hb. destruct Hb as [Hc He].
  apply Z.eqb_eq in Hc. apply Z.leb_le in He.
  unfold SFdiv, SFdiv_core_binary.
  rewrite xorb_false_r.
  change (Zdigits2 (Z.pos m)) with (Z.pos (digits2_pos m)).
  change (Zdigits2 4503599627370496) with 53%Z.
  unfold binary_round_aux, shr_fexp.
  set (d := Z.pos (digits2_pos m)) in *.
  assert (Hd : (0 < d)%Z) by (unfold d; lia).
  unfold fexp, emin, prec, emax in *.
  assert (Hle : (e <=? 1024 - 53)%Z = true) by (apply Z.leb_le; lia).
  destruct (Z.eq_dec e (-1074)) as [E|E].
  - (* the least exponent: the quotient is the mantissa *)
    replace (Z.min (Z.max (d + e - (53 + -52) - 53) (3 - 1024 - 53)) (e - -52))
      with e by lia.
    replace (e - -52 - e)%Z with 52%Z by lia.
    rewrite (@div_eucl_exact _ (Z.pos m)).
    2:{ rewrite Z.shiftl_mul_pow2 by lia. lia. }
    change (new_location 4503599627370496 0) with loc_Exact.
    cbn [shr_record_of_loc Zdigits2]. fold d.
    replace (Z.max (d + e - 53) (3 - 1024 - 53) - e)%Z with 0%Z by lia.
    cbn [shr shr_m loc_of_shr_record round_nearest_even shr_record_of_loc Zdigits2].
    fold d.
    replace (Z.max (d + e - 53) (3 - 1024 - 53) - e)%Z with 0%Z by lia.
    cbn [shr shr_m]. now rewrite Hle.
  - (* a normal number: the quotient is twice the mantissa, one exponent down *)
    assert (Hd53 : d = 53%Z) by lia.
    replace (Z.min (Z.max (d + e - (53 + -52) - 53) (3 - 1024 - 53)) (e - -52))
      with (e - 1)%Z by lia.
    replace (e - -52 - (e - 1))%Z with 53%Z by lia.
    rewrite (@div_eucl_exact _ (Z.pos m~0)).
    2:{ rewrite Z.shiftl_mul_pow2 by lia. lia. }
    change (new_location 4503599627370496 0) with loc_Exact.
    cbn [shr_record_of_loc Zdigits2 digits2_pos].
    rewrite Pos2Z.inj_succ. fold d.
    replace (Z.max (Z.succ d + (e - 1) - 53) (3 - 1024 - 53) - (e - 1))%Z
      with 1%Z by lia.
    cbn [shr iter_pos shr_1 shr_m loc_of_shr_record round_nearest_even
         shr_record_of_loc Zdigits2 orb].
    fold d.
    replace (e - 1 + 1)%Z with e by lia.
    replace (Z.max (d + e - 53) (3 - 1024 - 53) - e)%Z with 0%Z by lia.
    cbn [shr shr_m]. now rewrite Hle.
Qed.

(** Dividing by 1 changes no number: not a finite one, not a zero of
    either sign, not an infinity, not [NaN]. *)
Lemma div_one (x : num) : (x / one)%num = x.
Proof.
  unfold div. apply Prim2SF_inj. rewrite div_spec.
  pose proof (Prim2SF_valid x) as Hv.
  change (Prim2SF one) with (S754_finite false 4503599627370496 (-52)).
  destruct (Prim2SF x) as [s|s| |s m e].
  - destruct s; reflexivity.
  - destruct s; reflexivity.
  - reflexivity.
  - apply SFdiv_finite_one. exact Hv.
Qed.

Lemma map_div_one (xs : list num) : map (fun j => (j / one)%num) xs = xs.
Proof.
  induction xs as [|x xs IH]; simpl; [reflexivity|]. now rewrite div_one, IH.
Qed.

(** The fold over a batch of one example: [getMeanGradient([x], [y])] is
    [getGradient(x, y)] on every network. It throws what [getGradient]
    throws, and when [getGradient] returns a gradient it returns that
    gradient, every entry of [nabla_w] and [nabla_b] the same (the sum is
    the only gradient itself, and each entry is divided by 1). *)
Lemma getMeanGradient_single :
  forall (net : Network) (x y : list num),
    getMeanGradient net [x] [y] = getGradient net x y.
Proof.
  intros net x y. unfold getMeanGradient, mapiM.
  cbn [length Nat.eqb negb mapiM_from get nth_error prop bind].
  destruct (getGradient net x y) as [[nw nb]|e]; [|reflexivity].
  cbn [bind reduce1M reduceM_from nabla_w nabla_b]. fold one.
  f_equal. f_equal.
  - induction nw as [|k nw IH]; simpl; [reflexivity|]. rewrite IH. f_equal.
    induction k as [|i k IHk]; simpl; [reflexivity|].
    now rewrite IHk, map_div_one.
  - induction nb as [|k nb IH]; simpl; [reflexivity|].
    now rewrite IH, map_div_one.
Qed.

(** C7, on the examples of valid length: on a network the constructor
    built whose input layer has a neuron, for every [x] with [size(0)]
    numbers and every [y], [getGradient(x, y)] throws the dimension
    mismatch error of the guard on the input (against length 0, the length
    of [biases[0]]), and [getMeanGradient([x], [y])] throws it too: no
    gradient is returned for the example. *)
Theorem getMeanGradient_single_valid_throws :
  forall (Math_random : nat -> num) (layers : list (nat * Activation))
         (x y : list num),
    layers <> [] ->
    1 <= size layers 0 ->
    length x = size layers 0 ->
    getGradient (constructor Math_random layers) x y
      = Throw (InputLengthError 0) /\
    getMeanGradient (constructor Math_random layers) [x] [y]
      = Throw (InputLengthError 0).
Proof.
  intros Math_random layers x y Hne Hsize Hx.
  assert (Hg : getGradient (constructor Math_random layers) x y
               = Throw (InputLengthError 0)).
  { unfold getGradient, backward.
    rewrite (checkInput_rejects _ x (constructor_biases_0 Math_random Hne));
      [reflexivity|].
    cbn [length]. lia. }
  split; [exact Hg|].
  unfold getMeanGradient, mapiM.
  cbn [length Nat.eqb negb mapiM_from get nth_error prop bind].
  now rewrite Hg.
Qed.

(** The example of the scenario on [new Network([2, linear], [1, linear])]:
    [x = [1, 2]] has the two numbers of the input layer, and both calls
    throw. *)
Lemma getMeanGradient_single_valid_throws_witness :
  let net := constructor draws [(2, linear); (1, linear)] in
  getGradient net [1%float; 2%float] [5%float] = Throw (InputLengthError 0) /\
  getMeanGradient net [[1%float; 2%float]] [[5%float]]
    = Throw (InputLengthError 0).
Proof.
  apply (@getMeanGradient_single_valid_throws draws [(2, linear); (1, linear)]
           [1%float; 2%float] [5%float]).
  - discriminate.
  - vm_compute. lia.
  - reflexivity.
Defined.

(** ** The update of one batch *)

Lemma mapi_from_get {A B} (f : A -> nat -> B) (xs : list A) :
  forall i n, get (mapi_from f i xs) n = option_map (fun x => f x (i + n)) (get xs n).
Proof.
  unfold get; induction xs as [|x xs IH]; intros i [|n]; simpl; auto.
  - now rewrite Nat.add_0_r.
  - rewrite IH. now rewrite <- plus_n_Sm.
Qed.

(** With a gradient in the shape of the weights no read of
    [nabla_w[k][i]] is a read on [undefined]: the [map] returns, and
    returns the entries less the gradient's. *)
Lemma subWeights_pure (ws nabla_w : list (list (list num))) :
  shape3 nabla_w = shape3 ws ->
  subWeights ws nabla_w
  = Ok (mapi (fun w0 k =>
                mapi (fun w1 i =>
                        mapi (fun w j => (w - ofValue (get3 nabla_w k i j))%num) w1)
                     w0)
             ws).
Proof.
  intros Hs. unfold subWeights, mapiM, mapi.
  apply mapiM_from_pure. intros k w0 Hk. cbn [Nat.add].
  destruct (map_eq_get _ _ _ _ _ Hs Hk) as (gk & Hgk & Hsk).
  apply mapiM_from_pure. intros i w1 Hi. cbn [Nat.add].
  destruct (map_eq_get _ _ _ _ _ Hsk Hi) as (gki & Hgki & _).
  apply mapiM_from_pure. intros j w Hj. cbn [Nat.add].
  unfold get3, get2. rewrite Hgk. cbn [prop bind]. rewrite Hgki. reflexivity.
Qed.

Lemma subBiases_pure (bs nabla_b : list (list num)) :
  length nabla_b = length bs ->
  subBiases bs nabla_b
  = Ok (mapi (fun b0 k => mapi (fun b i => (b - ofValue (get2 nabla_b k i))%num) b0)
             bs).
Proof.
  intros Hl. unfold subBiases, mapiM, mapi.
  apply mapiM_from_pure. intros k b0 Hk. cbn [Nat.add].
  destruct (get nabla_b k) as [gk|] eqn:Hgk.
  - apply mapiM_from_pure. intros i b Hi. cbn [Nat.add].
    unfold get2. rewrite Hgk. reflexivity.
  - apply nth_error_None in Hgk.
    assert (k < length bs) by (apply nth_error_Some; unfold get in Hk; congruence).
    lia.
Qed.

(** A batch is applied whole or not at all: one turn of the loop either
    throws out of [getMeanGradient], the network untouched, or subtracts
    the whole mean gradient. *)
Lemma descendStep_spec (net : Network) (input target : list (list num)) :
  descendStep net input target
  = match getMeanGradient net input target with
    | Ok g => (applyGradient_spec net g, Ok tt)
    | Throw e => (net, Throw e)
    end.
Proof.
  unfold descendStep.
  destruct (getMeanGradient net input target) as [g|e] eqn:E; auto.
  apply getMeanGradient_shape in E. destruct E as [Hw Hb].
  rewrite (subWeights_pure _ _ Hw). cbn [biases].
  rewrite (subBiases_pure _ _ Hb). reflexivity.
Qed.

(** ** The loop over the batches *)

Lemma get_combine {A B} (xs : list A) (ys : list B) n x y :
  get xs n = Some x -> get ys n = Some y -> get (combine xs ys) n = Some (x, y).
Proof.
  unfold get; revert ys n; induction xs as [|a xs IH]; intros [|b ys] [|n];
    simpl; intros Hx Hy; try discriminate.
  - congruence.
  - now apply IH.
Qed.

Lemma get_combine_inv {A B} (xs : list A) (ys : list B) n x y :
  get (combine xs ys) n = Some (x, y) -> get xs n = Some x /\ get ys n = Some y.
Proof.
  unfold get; revert ys n; induction xs as [|a xs IH]; intros [|b ys] [|n];
    simpl; intros H; try discriminate.
  - injection H as -> ->. auto.
  - now apply IH.
Qed.

Lemma skipn_get {A} (xs : list A) n x :
  get xs n = Some x -> skipn n xs = x :: skipn (S n) xs.
Proof.
  unfold get; revert n; induction xs as [|a xs IH]; intros [|n]; simpl;
    intros H; try discriminate.
  - congruence.
  - now apply IH.
Qed.

Lemma descendLoop_spec (input target : list (list (list num))) :
  length input = length target ->
  forall count from net,
    from + count <= length input ->
    descendLoop count from net input target
    = gradientDescend_spec net (firstn count (skipn from (combine input target))).
Proof.
  intros Hlen. induction count as [|count IH]; intros from net Hle; [reflexivity|].
  cbn [descendLoop].
  destruct (get input from) as [i|] eqn:Ei;
    [|apply nth_error_None in Ei; lia].
  destruct (get target from) as [t|] eqn:Et;
    [|apply nth_error_None in Et; lia].
  rewrite (skipn_get _ _ (get_combine _ _ _ Ei Et)).
  cbn [firstn gradientDescend_spec]. rewrite descendStep_spec.
  destruct (getMeanGradient net i t) as [g|e]; [|reflexivity].
  apply IH. lia.
Qed.

(** The loop over the indices is the fold over the batches. *)
Lemma gradientDescend_refines (net : Network) (input target : list (list (list num))) :
  gradientDescend net input target
  = if length input =? length target
    then gradientDescend_spec net (combine input target)
    else (net, Throw BatchLengthError).
Proof.
  unfold gradientDescend.
  destruct (length input =? length target) eqn:E; [|reflexivity].
  apply Nat.eqb_eq in E. cbn [negb].
  rewrite (descendLoop_spec _ _ E) by lia. cbn [skipn].
  rewrite firstn_all2; [reflexivity|]. rewrite length_combine. lia.
Qed.

(** C8: [gradientDescend] is the fold over the batches in the order
    given, each batch's mean gradient taken on the network the batches
    before it left; and the update of a batch subtracts from every entry
    [weights[k][i][j]] the entry [nabla_w[k][i][j]] and from every entry
    [biases[k][i]] the entry [nabla_b[k][i]], without a factor, keeping
    the shapes. *)
Theorem gradientDescend_in_order :
  forall (net : Network) (input target : list (list (list num))),
    gradientDescend net input target
    = (if length input =? length target
       then gradientDescend_spec net (combine input target)
       else (net, Throw BatchLengthError)) /\
    (forall g k i j,
        get3 (weights (applyGradient_spec net g)) k i j
        = option_map (fun w => (w - ofValue (get3 g.(nabla_w) k i j))%num)
                     (get3 net.(weights) k i j)) /\
    (forall g k i,
        get2 (biases (applyGradient_spec net g)) k i
        = option_map (fun b => (b - ofValue (get2 g.(nabla_b) k i))%num)
                     (get2 net.(biases) k i)).
Proof.
  intros net input target. split; [apply gradientDescend_refines|]. split.
  - intros g k i j. unfold applyGradient_spec, get3, get2, mapi. cbn [weights].
    rewrite mapi_from_get. destruct (get (weights net) k) as [w0|]; [|reflexivity].
    cbn [option_map Nat.add]. rewrite mapi_from_get.
    destruct (get w0 i) as [w1|]; [|reflexivity].
    cbn [option_map Nat.add]. now rewrite mapi_from_get.
  - intros g k i. unfold applyGradient_spec, get2, mapi. cbn [biases].
    rewrite mapi_from_get. destruct (get (biases net) k) as [b0|]; [|reflexivity].
    cbn [option_map Nat.add]. now rewrite mapi_from_get.
Qed.

(** ** Where a failing update leaves the network *)

Lemma float_neq (x y : float) : Prim2SF x <> Prim2SF y -> x <> y.
Proof.
  intros H E. apply H. now rewrite E.
Qed.

(** C6 as stated fails: the first batch is applied, the second throws
    (its two lists differ in length), and the weights are left as the first
    batch updated them. *)
Lemma gradientDescend_throws_after_update :
  exists net',
    gradientDescend (scenario draws) [[[]]; [[]]] [[[5%float]]; []]
      = (net', Throw BatchLengthError) /\
    get3 (weights (scenario draws)) 1 0 0 = Some 1%float /\
    get3 (weights net') 1 0 0 = Some NaN /\
    weights net' <> weights (scenario draws).
Proof.
  eexists. split; [vm_compute; reflexivity|].
  split; [reflexivity|]. split; [reflexivity|].
  intros H. apply (f_equal (fun w => ofValue (get3 w 1 0 0))) in H.
  revert H. apply float_neq. vm_compute. discriminate.
Qed.

Lemma gradientDescend_spec_failure
  (batches : list (list (list num) * list (list num))) :
  forall net net' e,
    gradientDescend_spec net batches = (net', Throw e) ->
    exists n i t,
      get batches n = Some (i, t) /\
      gradientDescend_spec net (firstn n batches) = (net', Ok tt) /\
      getMeanGradient net' i t = Throw e.
Proof.
  induction batches as [|[i t] rest IH]; intros net net' e H; [discriminate|].
  cbn [gradientDescend_spec] in H.
  destruct (getMeanGradient net i t) as [g|e'] eqn:E.
  - destruct (IH _ _ _ H) as (n & i' & t' & Hn & Hpre & Hfail).
    exists (S n), i', t'. split; [exact Hn|]. split; [|exact Hfail].
    cbn [firstn gradientDescend_spec]. now rewrite E.
  - injection H as <- <-. exists 0, i, t. repeat split; auto.
Qed.

(** C6, amended: when [gradientDescend] throws, either the two outer
    lists differ in length and the network is as it was, or some batch [n]
    threw out of [getMeanGradient] and the network is exactly what the call
    on the [n] batches before it returns with: those batches stay applied,
    the failing one is not applied even in part, and when the failing batch
    is the first the network is as it was. *)
Theorem gradientDescend_failure_state :
  forall (net net' : Network) (input target : list (list (list num))) (e : exn),
    gradientDescend net input target = (net', Throw e) ->
    (length input <> length target /\ net' = net /\ e = BatchLengthError) \/
    (length input = length target /\
     exists n i t,
       get input n = Some i /\ get target n = Some t /\
       gradientDescend net (firstn n input) (firstn n target) = (net', Ok tt) /\
       getMeanGradient net' i t = Throw e /\
       (n = 0 -> net' = net)).
Proof.
  intros net net' input target e H. rewrite gradientDescend_refines in H.
  destruct (length input =? length target) eqn:E.
  - right. apply Nat.eqb_eq in E. split; [exact E|].
    destruct (gradientDescend_spec_failure _ _ H) as (n & i & t & Hn & Hpre & Hfail).
    apply get_combine_inv in Hn. destruct Hn as [Hi Ht].
    exists n, i, t. split; [exact Hi|]. split; [exact Ht|].
    split; [|split; [exact Hfail|]].
    + rewrite gradientDescend_refines, !length_firstn, E, Nat.eqb_refl.
      now rewrite <- combine_firstn.
    + intros ->. cbn [firstn gradientDescend_spec] in Hpre. congruence.
  - left. apply Nat.eqb_neq in E. injection H as <- <-. auto.
Qed.

(** The two batches of the failing call above: the second batch throws,
    and the network is what the call on the first batch alone returns
    with. *)
Lemma gradientDescend_failure_state_witness :
  exists net',
    gradientDescend (scenario draws) [[[]]; [[]]] [[[5%float]]; []]
      = (net', Throw BatchLengthError) /\
    exists n i t,
      get [[[]]; [[]]] n = Some i /\ get [[[5%float]]; []] n = Some t /\
      gradientDescend (scenario draws) (firstn n [[[]]; [[]]])
                      (firstn n [[[5%float]]; []]) = (net', Ok tt) /\
      getMeanGradient net' i t = Throw BatchLengthError /\
      (n = 0 -> net' = scenario draws).
Proof.
  eexists. split; [vm_compute; reflexivity|].
  match goal with
  | |- exists n i t, _ /\ _ /\ gradientDescend ?net _ _ = (?net', _) /\ _ =>
      destruct (@gradientDescend_failure_state net net' [[[]]; [[]]]
                  [[[5%float]]; []] BatchLengthError)
        as [[Hne _]|[_ Hex]]
  end.
  - vm_compute. reflexivity.
  - exfalso. apply Hne. reflexivity.
  - exact Hex.
Defined.

(** * Further properties of the code *)

(** ** Loops and maps that return *)

Lemma for_up_invariant_from {S} (P : S -> Prop) (body : nat -> S -> result S) :
  forall count from s s',
    (forall k s s', from <= k -> body k s = Ok s' -> P s -> P s') ->
    for_up count from body s = Ok s' -> P s -> P s'.
Proof.
  induction count as [|count IH]; simpl; intros from s s' Hb H HP.
  - now injection H as <-.
  - destruct (body from s) as [s1|e] eqn:E; simpl in H; try discriminate.
    apply (IH (Datatypes.S from) s1 s'); eauto.
    intros k t t' Hk. apply Hb. lia.
Qed.

Lemma for_up_total {S} (P : S -> Prop) (body : nat -> S -> result S) :
  forall count from s,
    (forall k s, from <= k < from + count -> P s ->
                 exists s', body k s = Ok s' /\ P s') ->
    P s -> exists s', for_up count from body s = Ok s' /\ P s'.
Proof.
  induction count as [|count IH]; simpl; intros from s Hb HP.
  - eauto.
  - destruct (Hb from s) as (s1 & E & HP1); [lia|exact HP|].
    rewrite E. simpl. apply IH; auto.
    intros k t Hk. apply Hb. lia.
Qed.

Lemma for_up_ext {S} (body1 body2 : nat -> S -> result S) :
  forall count from s,
    (forall k s, from <= k -> body1 k s = body2 k s) ->
    for_up count from body1 s = for_up count from body2 s.
Proof.
  induction count as [|count IH]; simpl; intros from s H; [reflexivity|].
  rewrite (H from s) by lia. destruct (body2 from s) as [s1|e]; simpl; auto.
  apply IH. intros k t Hk. apply H. lia.
Qed.

Lemma mapiM_from_total {A B} (f : A -> nat -> result B) xs :
  forall i,
    (forall n x, get xs n = Some x -> exists y, f x (i + n) = Ok y) ->
    exists ys, mapiM_from f i xs = Ok ys.
Proof.
  unfold get; induction xs as [|x xs IH]; simpl; intros i H; [eauto|].
  destruct (H 0 x eq_refl) as (y & Hy). rewrite Nat.add_0_r in Hy. rewrite Hy.
  destruct (IH (S i)) as (ys & Hys).
  - intros n x0 Hn. destruct (H (S n) x0 Hn) as (y0 & Hy0).
    exists y0. now rewrite <- plus_n_Sm in Hy0.
  - rewrite Hys. simpl. eauto.
Qed.

Lemma reduceM_from_total {A B} (f : B -> A -> nat -> result B) xs :
  (forall acc x i, exists acc', f acc x i = Ok acc') ->
  forall i acc, exists r, reduceM_from f i acc xs = Ok r.
Proof.
  intros Hf; induction xs as [|x xs IH]; simpl; intros i acc; [eauto|].
  destruct (Hf acc x i) as (acc' & E). rewrite E. simpl. apply IH.
Qed.

Lemma get_lt {A} (xs : list A) (n : nat) :
  n < length xs -> exists x, get xs n = Some x.
Proof.
  unfold get. intros H. destruct (nth_error xs n) as [x|] eqn:E; [eauto|].
  apply nth_error_None in E. lia.
Qed.

Lemma get_Some_lt {A} (xs : list A) (n : nat) (x : A) :
  get xs n = Some x -> n < length xs.
Proof.
  unfold get. intros H. apply nth_error_Some. congruence.
Qed.

Lemma prop_ok {A} (v : option A) (x : A) : prop v = Ok x -> v = Some x.
Proof.
  destruct v; simpl; intros H; [now injection H as ->|discriminate].
Qed.

(** ** What [getOutput] returns *)

(** The invariant of the loop of [getOutput]: [a] keeps the shape of
    [biases], and [a[0]] stays the input. *)
Lemma getOutput_shape_input (net : Network) (input : list num) (a : list (list num)) :
  getOutput net input = Ok a ->
  shape2 a = shape2 net.(biases) /\ get a 0 = Some input.
Proof.
  unfold getOutput. intros H. bind_ok H. cbv zeta in H.
  match goal with E : checkInput _ _ = Ok _ |- _ =>
    unfold checkInput in E; bind_ok E;
    destruct (length _ =? length input) eqn:El; [|discriminate E];
    apply Nat.eqb_eq in El
  end.
  match goal with E : prop _ = Ok ?b |- _ =>
    apply prop_ok in E; rename E into H0; rename b into b0 end.
  eapply (for_up_invariant_from
            (fun a => shape2 a = shape2 net.(biases) /\ get a 0 = Some input));
    [|exact H|].
  - intros k s s' Hk Hs [Hsh Hin]. cbv beta in Hs. bind_ok Hs. injection Hs as <-.
    match goal with E : prop _ = Ok _ |- _ => apply prop_ok in E; rename E into Hbk end.
    match goal with E : mapiM _ _ = Ok _ |- _ =>
      apply mapiM_from_length in E; rename E into Hlen end.
    destruct (map_eq_get _ _ _ _ _ Hsh Hbk) as (x & Hx & Hxl).
    split.
    + rewrite <- Hsh. unfold shape2. eapply assign_map_same; eauto. congruence.
    + rewrite assign_get_other by lia. exact Hin.
  - split.
    + unfold shape2 at 1. rewrite (assign_map_same _ _ _ (x := map (fun _ => zero) b0)).
      * rewrite map_map. apply map_ext. intros layer. apply length_map.
      * unfold get in *. now rewrite nth_error_map, H0.
      * now rewrite length_map.
    + apply assign_get_same. rewrite length_map.
      eapply get_Some_lt; eauto.
Qed.

(** X1: Whenever [getOutput] returns, it returns one vector per layer, the
    vector of layer [k] as long as [biases[k]], and the first one is the
    input itself. *)
Theorem getOutput_layers :
  forall (net : Network) (input : list num) (a : list (list num)),
    getOutput net input = Ok a ->
    length a = length net.(biases) /\
    shape2 a = shape2 net.(biases) /\
    get a 0 = Some input.
Proof.
  intros net input a H. split; [now apply getOutput_length in H|].
  now apply getOutput_shape_input.
Qed.

Lemma getOutput_layers_witness :
  length [[1%float; 2%float]; [3%float]] = length (scenario_open draws).(biases) /\
  shape2 [[1%float; 2%float]; [3%float]] = shape2 (scenario_open draws).(biases) /\
  get [[1%float; 2%float]; [3%float]] 0 = Some [1%float; 2%float].
Proof.
  apply (@getOutput_layers (scenario_open draws) [1%float; 2%float]).
  vm_compute. reflexivity.
Defined.

(** On a network where every neuron of a layer [k >= 1] has its row of
    weights and the layer has its activation, an input the guard accepts
    goes through: no read hits [undefined]. *)
Lemma getOutput_returns (net : Network) (input b0 : list num) :
  get net.(biases) 0 = Some b0 ->
  length b0 = length input ->
  (forall k bk, 1 <= k -> get net.(biases) k = Some bk ->
     exists wk act,
       get net.(weights) k = Some wk /\
       get net.(activations) k = Some act /\
       length bk <= length wk) ->
  exists a, getOutput net input = Ok a.
Proof.
  intros H0 Hlen Hshape. unfold getOutput, checkInput. rewrite H0. cbn [prop bind].
  apply Nat.eqb_eq in Hlen. rewrite Hlen. cbn [bind].
  pose proof (get_Some_lt _ _ H0) as HL.
  match goal with
  | |- exists a, for_up ?c ?f ?b ?s = Ok a =>
      destruct (@for_up_total _ (fun a => length a = length net.(biases)) b c f s)
        as (a & Ha & _); [| |eauto]
  end.
  - intros k s Hk Hs.
    destruct (@get_lt _ net.(biases) k) as (bk & Hbk); [lia|].
    destruct (Hshape k bk) as (wk & act & Hwk & Hact & Hle); [lia|exact Hbk|].
    rewrite Hbk. cbn [prop bind].
    match goal with
    | |- context [mapiM ?f bk] =>
        destruct (@mapiM_from_total _ _ f bk 0) as (ak & Hak)
    end.
    + intros j b Hj. cbn [Nat.add]. unfold weightedSum. rewrite Hwk. cbn [prop bind].
      destruct (@get_lt _ wk j) as (row & Hrow);
        [apply get_Some_lt in Hj; lia|].
      rewrite Hrow. cbn [prop bind].
      destruct (@get_lt _ s (k - 1)) as (prev & Hprev); [lia|].
      match goal with
      | |- context [reduceM ?f zero row] =>
          destruct (@reduceM_from_total _ _ f row) with (i := 0) (acc := zero)
            as (r & Hr)
      end.
      * intros acc x i. destruct k as [|k']; [lia|].
        cbn [get_pred]. replace (S k' - 1) with k' in Hprev by lia.
        unfold get in Hprev. rewrite Hprev. cbn [prop bind]. eauto.
      * unfold reduceM. rewrite Hr. cbn [bind]. rewrite Hact. cbn [prop bind]. eauto.
    + unfold mapiM. rewrite Hak. cbn [bind]. eexists. split; [reflexivity|].
      now rewrite assign_length.
  - now rewrite assign_length, length_map.
Qed.

Lemma constructor_getOutput_empty (Math_random : nat -> num)
  (layers : list (nat * Activation)) :
  layers <> [] ->
  exists a, getOutput (constructor Math_random layers) [] = Ok a.
Proof.
  intros Hne.
  pose proof (constructor_biases_0 Math_random Hne) as H0.
  destruct (constructor_lengths Math_random layers) as (Hlw & Hlb & Hla).
  apply (getOutput_returns _ [] H0); [reflexivity|].
  intros k bk Hk Hbk.
  assert (Hlt : k < length layers) by (apply get_Some_lt in Hbk; lia).
  destruct (constructor_layer Math_random layers Hk Hlt)
    as (wk & bk' & Hwk & Hbk' & Hlwk & _ & Hlbk).
  destruct (@get_lt _ (constructor Math_random layers).(activations) k) as (act & Hact);
    [lia|].
  exists wk, act. repeat split; auto.
  rewrite Hbk in Hbk'. injection Hbk' as <-. lia.
Qed.

(** X2: On a network the constructor built, whatever the sizes of its layers,
    [getOutput] returns exactly on the empty input, and throws the
    dimension mismatch error, against length 0, on every other input. *)
Theorem constructor_getOutput_returns :
  forall (Math_random : nat -> num) (layers : list (nat * Activation))
         (input : list num),
    layers <> [] ->
    ((exists a, getOutput (constructor Math_random layers) input = Ok a) <->
     input = []) /\
    (input <> [] ->
     getOutput (constructor Math_random layers) input = Throw (InputLengthError 0)).
Proof.
  intros Math_random layers input Hne.
  pose proof (constructor_biases_0 Math_random Hne) as H0.
  assert (Hthrow : input <> [] ->
            getOutput (constructor Math_random layers) input
            = Throw (InputLengthError 0)).
  { intros Hi. apply (getOutput_rejects _ input H0).
    destruct input; [congruence|discriminate]. }
  split; [|exact Hthrow]. split.
  - intros [a Ha]. destruct input as [|x input]; [reflexivity|].
    rewrite Hthrow in Ha; discriminate.
  - intros ->. now apply constructor_getOutput_empty.
Qed.

Lemma constructor_getOutput_returns_witness :
  ((exists a, getOutput (constructor draws [(2, linear); (1, linear)])
                        [1%float; 2%float] = Ok a) <->
   [1%float; 2%float] = []) /\
  ([1%float; 2%float] <> [] ->
   getOutput (constructor draws [(2, linear); (1, linear)]) [1%float; 2%float]
   = Throw (InputLengthError 0)).
Proof.
  apply (@constructor_getOutput_returns draws [(2, linear); (1, linear)]
           [1%float; 2%float]).
  discriminate.
Defined.

(** ** A network whose output layer is empty *)

Lemma getCost_needs_output (net : Network) (input target : list num) (v : num) :
  get_pred net.(biases) (length net.(biases)) = Some [] ->
  getCost net input target <> Ok v.
Proof.
  intros HbL H. unfold getCost in H. bind_ok H. cbv zeta in H.
  bind_ok H.
  match goal with E : getOutput _ _ = Ok ?a |- _ =>
    apply getOutput_shape_input in E; destruct E as [Hsh _] end.
  match goal with E : prop _ = Ok _ |- _ => apply prop_ok in E; rename E into HaL end.
  destruct (length (biases net)) as [|L']; [discriminate HbL|].
  cbn [get_pred] in HbL, HaL.
  destruct (map_eq_get _ _ _ _ _ (eq_sym Hsh) HaL) as (x & Hx & Hl).
  unfold get in Hx. rewrite HbL in Hx. injection Hx as <-.
  match goal with E : reduce1M _ ?aL = Ok _ |- _ =>
    destruct aL; [discriminate E|discriminate Hl] end.
Qed.

(** X3: When [biases[L - 1]] is empty, and so for every network of one layer
    the constructor built, [getCost] never returns a number: past the two
    guards the output layer is empty and its [reduce], having no initial
    value, throws. *)
Theorem getCost_empty_output_layer :
  forall (net : Network) (input target : list num) (v : num),
    get_pred net.(biases) (length net.(biases)) = Some [] ->
    getCost net input target <> Ok v.
Proof.
  intros net input target v. apply getCost_needs_output.
Qed.

Lemma getCost_empty_output_layer_witness :
  getCost (constructor draws [(3, linear)]) [] [] <> Ok 0%float.
Proof.
  apply (@getCost_empty_output_layer (constructor draws [(3, linear)])).
  vm_compute. reflexivity.
Defined.

(** ** The forward pass and its recomputation *)

Lemma for_up_indexed {S} (P : nat -> S -> Prop) (body : nat -> S -> result S) :
  forall count from s s',
    (forall k s s', from <= k -> body k s = Ok s' -> P k s -> P (Datatypes.S k) s') ->
    for_up count from body s = Ok s' -> P from s -> P (from + count) s'.
Proof.
  induction count as [|count IH]; simpl; intros from s s' Hb H HP.
  - injection H as <-. now rewrite Nat.add_0_r.
  - destruct (body from s) as [s1|e] eqn:E; simpl in H; try discriminate.
    rewrite <- plus_n_Sm.
    apply (IH (Datatypes.S from) s1 s'); eauto.
    intros k t t' Hk. apply Hb. lia.
Qed.

Lemma mapiM_from_get_inv {A B} (f : A -> nat -> result B) xs :
  forall i ys, mapiM_from f i xs = Ok ys ->
  forall n y, get ys n = Some y ->
  exists x, get xs n = Some x /\ f x (i + n) = Ok y.
Proof.
  intros i ys H n y Hy.
  pose proof (mapiM_from_length _ _ _ H) as Hl.
  destruct (@get_lt _ xs n) as (x & Hx);
    [apply get_Some_lt in Hy; lia|].
  destruct (mapiM_from_get _ _ _ H _ Hx) as (y' & Hy' & Hf).
  exists x. split; [exact Hx|]. congruence.
Qed.

(** The weighted sum of layer [k] reads [a] at [a[k - 1]] only. *)
Lemma weightedSum_ext (a a' : list (list num)) (ws : list (list (list num)))
  (k j : nat) :
  get_pred a k = get_pred a' k -> weightedSum a ws k j = weightedSum a' ws k j.
Proof.
  intros H. unfold weightedSum. now rewrite H.
Qed.

Lemma getOutput_loop_values (net : Network) (input : list num) (a : list (list num)) :
  getOutput net input = Ok a ->
  forall k ak j v,
    1 <= k -> get a k = Some ak -> get ak j = Some v ->
    exists act s bk b,
      get net.(activations) k = Some act /\
      weightedSum a net.(weights) k j = Ok s /\
      get net.(biases) k = Some bk /\ get bk j = Some b /\
      v = act.(activation) (s + b)%num.
Proof.
  intros H. pose proof (getOutput_length _ _ H) as HL.
  unfold getOutput in H. bind_ok H. cbv zeta in H.
  match goal with
  | H : for_up ?cnt ?frm ?bdy ?st0 = Ok a |- _ =>
      pose proof (@for_up_indexed _
        (fun n a =>
           length a = length net.(biases) /\
           forall k ak j v,
             1 <= k < n -> get a k = Some ak -> get ak j = Some v ->
             exists act s bk b,
               get net.(activations) k = Some act /\
               weightedSum a net.(weights) k j = Ok s /\
               get net.(biases) k = Some bk /\ get bk j = Some b /\
               v = act.(activation) (s + b)%num)
        bdy cnt frm st0 a) as Hinv
  end.
  destruct Hinv as [_ Hinv]; [|exact H| |].
  - intros n s s' Hn Hs [Hlen IH]. cbv beta in Hs. bind_ok Hs. injection Hs as <-.
    match goal with E : prop _ = Ok _ |- _ => apply prop_ok in E; rename E into Hbn end.
    match goal with E : mapiM _ ?x = Ok ?y |- _ =>
      rename E into Hmap; rename x into bn; rename y into an end.
    split; [now rewrite assign_length|].
    intros k ak j v Hk Hak Hv.
    assert (Hpred : get_pred (assign s n an) k = get_pred s k).
    { destruct k as [|k']; [reflexivity|]. cbn [get_pred].
      apply (@assign_get_other _ s n k'). lia. }
    rewrite (@weightedSum_ext _ _ net.(weights) k j Hpred).
    destruct (Nat.eq_dec k n) as [->|Hne].
    + rewrite assign_get_same in Hak
        by (rewrite Hlen; eapply get_Some_lt; eauto).
      injection Hak as <-.
      destruct (mapiM_from_get_inv _ _ _ Hmap _ Hv) as (b & Hb & Hf).
      cbn [Nat.add] in Hf. bind_ok Hf. cbv zeta in Hf. bind_ok Hf.
      injection Hf as <-.
      match goal with E : prop _ = Ok _ |- _ => apply prop_ok in E end.
      eauto 10.
    + rewrite assign_get_other in Hak by exact Hne.
      apply (IH k ak j v); auto. lia.
  - split; [now rewrite assign_length, length_map|]. intros; lia.
  - intros k ak j v Hk Hak Hv. apply (Hinv k ak j v); auto.
    apply get_Some_lt in Hak. lia.
Qed.

(** X4: The value [getGradient] recomputes with [outputToZ] is the one the
    forward pass fed to the activation: whenever [getOutput] returns [a],
    every [a[k][j]] of a layer [k >= 1] is the activation of layer [k] at
    [outputToZ(a, weights, biases, k, j)]. *)
Theorem getOutput_is_activation_of_outputToZ :
  forall (net : Network) (input : list num) (a : list (list num))
         (k j : nat) (ak : list num) (v : num),
    getOutput net input = Ok a ->
    1 <= k -> get a k = Some ak -> get ak j = Some v ->
    exists act z,
      get net.(activations) k = Some act /\
      outputToZ a net.(weights) net.(biases) k j = Ok z /\
      v = act.(activation) z.
Proof.
  intros net input a k j ak v H Hk Hak Hv.
  destruct (@getOutput_loop_values net input a H k ak j v Hk Hak Hv)
    as (act & s & bk & b & Hact & Hs & Hbk & Hb & ->).
  exists act, (s + b)%num. split; [exact Hact|]. split; [|reflexivity].
  unfold outputToZ. destruct k as [|k']; [lia|].
  rewrite Hs. cbn [bind]. rewrite Hbk. cbn [prop bind]. now rewrite Hb.
Qed.

Lemma getOutput_is_activation_of_outputToZ_witness :
  exists act z,
    get (scenario_open draws).(activations) 1 = Some act /\
    outputToZ [[1%float; 2%float]; [3%float]] (scenario_open draws).(weights)
              (scenario_open draws).(biases) 1 0 = Ok z /\
    3%float = act.(activation) z.
Proof.
  apply (@getOutput_is_activation_of_outputToZ (scenario_open draws)
           [1%float; 2%float] [[1%float; 2%float]; [3%float]] 1 0 [3%float] 3%float).
  - vm_compute. reflexivity.
  - apply le_n.
  - reflexivity.
  - reflexivity.
Defined.

(** ** The activation of the input layer *)

(** X5: [getOutput] and [getCost] never call the activation recorded for layer
    0: with any other activation in its place they give the same result. *)
Theorem forward_ignores_activation_0 :
  forall (net : Network) (act0 : Activation) (input target : list num),
    let net' := {| weights := net.(weights);
                   biases := net.(biases);
                   activations := assign net.(activations) 0 act0 |} in
    getOutput net' input = getOutput net input /\
    getCost net' input target = getCost net input target.
Proof.
  intros net act0 input target net'.
  assert (Hout : getOutput net' input = getOutput net input).
  { unfold getOutput, checkInput. subst net'. cbn [weights biases activations].
    destruct (prop (get (biases net) 0)) as [b0|e]; cbn [bind]; [|reflexivity].
    destruct (length b0 =? length input); cbn [bind]; [|reflexivity].
    apply for_up_ext. intros k s Hk.
    now rewrite (@assign_get_other _ (activations net) 0 k act0) by lia. }
  split; [exact Hout|].
  unfold getCost. rewrite Hout. reflexivity.
Qed.

(** ** Which exception a call throws *)

Lemma for_down_throws {S} (P : exn -> Prop) (body : nat -> S -> result S) :
  (forall k s e, body k s = Throw e -> P e) ->
  forall top s e, for_down top body s = Throw e -> P e.
Proof.
  intros Hb; induction top as [|k IH]; simpl; intros s e H; [discriminate|].
  destruct (body k s) as [s'|e'] eqn:E; simpl in H.
  - eauto.
  - injection H as <-. eauto.
Qed.

Lemma reduce1M_throws {A} (P : exn -> Prop) (f : A -> A -> nat -> result A) xs e :
  (forall acc x i e, f acc x i = Throw e -> P e) ->
  P TypeError_reduce_empty ->
  reduce1M f xs = Throw e -> P e.
Proof.
  intros Hf He. destruct xs as [|x xs]; simpl; intros H.
  - now injection H as <-.
  - revert H. now apply reduceM_from_throws.
Qed.

Lemma prop_isTypeError {A} (v : option A) (e : exn) :
  prop v = Throw e -> isTypeError e.
Proof.
  intros H. left. eapply prop_throws; eauto.
Qed.

Lemma checkInput_throws (net : Network) (input : list num) (e : exn) :
  checkInput net input = Throw e ->
  (exists n, e = InputLengthError n) \/ e = TypeError_undefined.
Proof.
  unfold checkInput. intros H.
  destruct (prop (get (biases net) 0)) as [b0|e0] eqn:E; cbn [bind] in H.
  - destruct (length b0 =? length input); [discriminate|].
    injection H as <-. eauto.
  - injection H as <-. right. eapply prop_throws; eauto.
Qed.

Lemma checkTarget_throws (net : Network) (target : list num) (e : exn) :
  checkTarget net target = Throw e ->
  (exists n, e = TargetLengthError n) \/ e = TypeError_undefined.
Proof.
  unfold checkTarget. cbv zeta. intros H.
  destruct (prop (get_pred (biases net) (length (biases net)))) as [bL|e0] eqn:E;
    cbn [bind] in H.
  - destruct (length bL =? length target); [discriminate|].
    injection H as <-. eauto.
  - injection H as <-. right. eapply prop_throws; eauto.
Qed.

(** The guard on the target throws its error exactly when the last vector
    of [biases] and the target differ in length. *)
Lemma checkTarget_error_iff (net : Network) (target : list num) (n : nat) :
  checkTarget net target = Throw (TargetLengthError n) <->
  exists bL,
    get_pred net.(biases) (length net.(biases)) = Some bL /\
    length bL = n /\ n <> length target.
Proof.
  unfold checkTarget. cbv zeta.
  destruct (get_pred (biases net) (length (biases net))) as [bL|]; cbn [prop bind].
  - destruct (length bL =? length target) eqn:E.
    + apply Nat.eqb_eq in E. split; [discriminate|].
      intros (b & Hb & Hl & Hn). injection Hb as <-. lia.
    + apply Nat.eqb_neq in E. split.
      * intros H. injection H as <-. eauto.
      * intros (b & Hb & Hl & Hn). injection Hb as <-. now subst.
  - split; [discriminate|]. intros (b & Hb & _). discriminate.
Qed.

Lemma getOutput_throws (net : Network) (input : list num) (e : exn) :
  getOutput net input = Throw e ->
  (exists n, e = InputLengthError n) \/ e = TypeError_undefined.
Proof.
  unfold getOutput. intros H.
  destruct (checkInput net input) as [u|e0] eqn:E; cbn [bind] in H.
  - right. eapply getOutput_loop_throws; eauto.
  - injection H as <-. eapply checkInput_throws; eauto.
Qed.

Lemma outputToZ_throws (a : list (list num)) (ws : list (list (list num)))
  (bs : list (list num)) (k j : nat) (e : exn) :
  outputToZ a ws bs k j = Throw e -> e = TypeError_undefined.
Proof.
  unfold outputToZ. destruct k as [|k']; [discriminate|]. intros H.
  destruct (weightedSum a ws (S k') j) as [s|e0] eqn:E; cbn [bind] in H;
    [|injection H as <-; eapply weightedSum_throws; eauto].
  destruct (prop (get bs (S k'))) as [bk|e0] eqn:E0; cbn [bind] in H;
    [discriminate|injection H as <-; eapply prop_throws; eauto].
Qed.

(** The backward loop throws nothing but the runtime's two exceptions. *)
Lemma backStep_throws (net : Network) (a : list (list num)) (k : nat)
  (st : BackState) (e : exn) :
  backStep net a k st = Throw e -> isTypeError e.
Proof.
  unfold backStep. intros H.
  destruct (prop (get (st_dCda st) k)) as [dk|e0] eqn:E0; cbn [bind] in H;
    [|injection H as <-; eapply prop_isTypeError; eauto].
  match type of H with bind ?c _ = _ => destruct c as [nb|e1] eqn:E1 end;
    cbn [bind] in H.
  2:{ injection H as <-. revert E1. unfold mapiM.
      apply (mapiM_from_throws isTypeError). intros dC j e2 H2.
      destruct (prop (get (activations net) k)) as [act|e3] eqn:E3; cbn [bind] in H2;
        [|injection H2 as <-; eapply prop_isTypeError; eauto].
      destruct (outputToZ a (weights net) (biases net) k j) as [z|e4] eqn:E4;
        cbn [bind] in H2; [discriminate|].
      injection H2 as <-. left. eapply outputToZ_throws; eauto. }
  cbv zeta in H.
  destruct (prop (get (weights net) k)) as [wk|e0] eqn:E2; cbn [bind] in H;
    [|injection H as <-; eapply prop_isTypeError; eauto].
  match type of H with bind ?c _ = _ => destruct c as [nw|e1] eqn:E3 end;
    cbn [bind] in H.
  2:{ injection H as <-. revert E3. unfold mapiM.
      apply (mapiM_from_throws isTypeError). intros row i e2.
      apply (mapiM_from_throws isTypeError). intros w j e3 H3.
      destruct (prop (get_pred a k)) as [prev|e4] eqn:E4; cbn [bind] in H3;
        [discriminate|].
      injection H3 as <-. eapply prop_isTypeError; eauto. }
  destruct k as [|k']; [discriminate|].
  destruct (propagate nw nb) as [d|e0] eqn:E4; cbn [bind] in H; [discriminate|].
  injection H as <-. revert E4. unfold propagate.
  apply (reduce1M_throws isTypeError); [discriminate|now right].
Qed.

(** What [getGradient] throws: one of the two guards' errors or one of the
    runtime's two exceptions, never the error of the batch lengths. *)
Lemma getGradient_throws (net : Network) (input target : list num) (e : exn) :
  getGradient net input target = Throw e ->
  (exists n, e = InputLengthError n) \/ (exists n, e = TargetLengthError n) \/
  isTypeError e.
Proof.
  unfold getGradient, backward. intros H.
  destruct (checkInput net input) as [u|e0] eqn:E0; cbn [bind] in H.
  2:{ injection H as <-. destruct (checkInput_throws _ _ E0) as [Hn| ->]; auto.
      right. right. now left. }
  destruct (checkTarget net target) as [u'|e0] eqn:E1; cbn [bind] in H.
  2:{ injection H as <-. destruct (checkTarget_throws _ _ E1) as [Hn| ->]; auto.
      right. right. now left. }
  destruct (getOutput net input) as [a|e0] eqn:E2; cbn [bind] in H.
  2:{ injection H as <-. destruct (getOutput_throws _ _ E2) as [Hn| ->]; auto.
      right. right. now left. }
  destruct (backInit net a target) as [st|e0] eqn:E3; cbn [bind] in H.
  2:{ injection H as <-. right. right. unfold backInit in E3. cbv zeta in E3.
      destruct (prop (get_pred a (length (biases net)))) eqn:E4; cbn [bind] in E3;
        [discriminate|].
      injection E3 as <-. eapply prop_isTypeError; eauto. }
  destruct (for_down (length (biases net)) (backStep net a) st) as [st'|e0] eqn:E4;
    cbn [bind] in H; [discriminate|].
  injection H as <-. right. right. revert E4.
  apply (for_down_throws isTypeError). apply backStep_throws.
Qed.

Lemma checkInput_ok_iff (net : Network) (input : list num) :
  checkInput net input = Ok tt <->
  exists b0, get net.(biases) 0 = Some b0 /\ length b0 = length input.
Proof.
  unfold checkInput. destruct (get (biases net) 0) as [b0|]; cbn [prop bind].
  - destruct (length b0 =? length input) eqn:E.
    + apply Nat.eqb_eq in E. split; eauto.
    + apply Nat.eqb_neq in E. split; [discriminate|].
      intros (b & Hb & Hl). injection Hb as <-. lia.
  - split; [discriminate|]. intros (b & Hb & _). discriminate.
Qed.

(** Past the two guards [getGradient] throws nothing but the runtime's two
    exceptions. *)
Lemma getGradient_past_guards (net : Network) (input target : list num) (e : exn) :
  checkInput net input = Ok tt ->
  checkTarget net target = Ok tt ->
  getGradient net input target = Throw e -> isTypeError e.
Proof.
  intros Hi Ht H.
  destruct (getGradient_throws _ _ _ H) as [[n ->]|[[n ->]|He]]; [| |exact He];
    exfalso; unfold getGradient, backward in H; rewrite Hi, Ht in H; cbn [bind] in H.
  - destruct (getOutput net input) as [a|e0] eqn:E2; cbn [bind] in H.
    + destruct (backInit net a target) as [st|e0] eqn:E3; cbn [bind] in H.
      * destruct (for_down (length (biases net)) (backStep net a) st) as [st'|e0] eqn:E4;
          cbn [bind] in H; [discriminate|]. injection H as ->.
        apply (for_down_throws isTypeError (backStep net a) (backStep_throws net a)) in E4.
        destruct E4; discriminate.
      * injection H as ->. unfold backInit in E3. cbv zeta in E3.
        destruct (prop (get_pred a (length (biases net)))) eqn:E4; cbn [bind] in E3;
          [discriminate|].
        injection E3 as ->. apply prop_throws in E4. discriminate.
    + injection H as ->. unfold getOutput in E2. rewrite Hi in E2. cbn [bind] in E2.
      apply getOutput_loop_throws in E2. discriminate.
  - destruct (getOutput net input) as [a|e0] eqn:E2; cbn [bind] in H.
    + destruct (backInit net a target) as [st|e0] eqn:E3; cbn [bind] in H.
      * destruct (for_down (length (biases net)) (backStep net a) st) as [st'|e0] eqn:E4;
          cbn [bind] in H; [discriminate|]. injection H as ->.
        apply (for_down_throws isTypeError (backStep net a) (backStep_throws net a)) in E4.
        destruct E4; discriminate.
      * injection H as ->. unfold backInit in E3. cbv zeta in E3.
        destruct (prop (get_pred a (length (biases net)))) eqn:E4; cbn [bind] in E3;
          [discriminate|].
        injection E3 as ->. apply prop_throws in E4. discriminate.
    + injection H as ->. apply getOutput_throws in E2.
      destruct E2 as [[m Hm]|Hm]; discriminate.
Qed.

(** X6: [getCost] and [getGradient] throw the error of the target's length on
    the same calls: exactly when the guard on the input passes and the
    target's length differs from the length of the last vector of
    [biases]. The input is checked first. *)
Theorem target_guard_iff :
  forall (net : Network) (input target : list num) (n : nat),
    let wrongTarget :=
      exists b0 bL,
        get net.(biases) 0 = Some b0 /\ length b0 = length input /\
        get_pred net.(biases) (length net.(biases)) = Some bL /\
        length bL = n /\ n <> length target in
    (getCost net input target = Throw (TargetLengthError n) <-> wrongTarget) /\
    (getGradient net input target = Throw (TargetLengthError n) <-> wrongTarget).
Proof.
  intros net input target n wrongTarget. subst wrongTarget.
  assert (Hback : (exists b0 bL,
             get net.(biases) 0 = Some b0 /\ length b0 = length input /\
             get_pred net.(biases) (length net.(biases)) = Some bL /\
             length bL = n /\ n <> length target) ->
          checkInput net input = Ok tt /\
          checkTarget net target = Throw (TargetLengthError n)).
  { intros (b0 & bL & H0 & Hl0 & HL & HlL & Hn). split.
    - apply checkInput_ok_iff. eauto.
    - apply checkTarget_error_iff. eauto. }
  assert (Hforth : checkInput net input = Ok tt ->
                   checkTarget net target = Throw (TargetLengthError n) ->
                   exists b0 bL,
                     get net.(biases) 0 = Some b0 /\ length b0 = length input /\
                     get_pred net.(biases) (length net.(biases)) = Some bL /\
                     length bL = n /\ n <> length target).
  { intros Hi Ht. apply checkInput_ok_iff in Hi. destruct Hi as (b0 & H0 & Hl0).
    apply checkTarget_error_iff in Ht. destruct Ht as (bL & HL & HlL & Hn).
    exists b0, bL. auto. }
  split; split.
  - intros H. unfold getCost in H.
    destruct (checkInput net input) as [[]|e0] eqn:Ei; cbn [bind] in H.
    2:{ injection H as ->. apply checkInput_throws in Ei.
        destruct Ei as [[m Hm]|Hm]; discriminate. }
    cbv zeta in H.
    destruct (checkTarget net target) as [[]|e0] eqn:Et; cbn [bind] in H.
    2:{ injection H as ->. now apply Hforth. }
    exfalso.
    destruct (getOutput net input) as [a|e0] eqn:E2; cbn [bind] in H.
    2:{ injection H as ->. apply getOutput_throws in E2.
        destruct E2 as [[m Hm]|Hm]; discriminate. }
    destruct (prop (get_pred a (length (biases net)))) as [aL|e0] eqn:E3;
      cbn [bind] in H.
    2:{ injection H as ->. apply prop_throws in E3. discriminate. }
    apply (@reduce1M_throws _ (fun e => e <> TargetLengthError n)) in H;
      [congruence|intros acc x i e0 H0; discriminate H0|discriminate].
  - intros H. destruct (Hback H) as [Hi Ht]. unfold getCost.
    rewrite Hi. cbn [bind]. cbv zeta. now rewrite Ht.
  - intros H.
    destruct (checkInput net input) as [[]|e0] eqn:Ei.
    2:{ unfold getGradient, backward in H. rewrite Ei in H. cbn [bind] in H.
        injection H as ->. apply checkInput_throws in Ei.
        destruct Ei as [[m Hm]|Hm]; discriminate. }
    destruct (checkTarget net target) as [[]|e0] eqn:Et.
    + apply (@getGradient_past_guards net input target _ Ei Et) in H.
      destruct H; discriminate.
    + unfold getGradient, backward in H. rewrite Ei, Et in H. cbn [bind] in H.
      injection H as ->. now apply Hforth.
  - intros H. destruct (Hback H) as [Hi Ht]. unfold getGradient, backward.
    rewrite Hi. cbn [bind]. now rewrite Ht.
Qed.

Lemma addGradient_throws (sum g : Gradient) (e : exn) :
  addGradient sum g = Throw e -> e = TypeError_undefined.
Proof.
  unfold addGradient. intros H.
  match type of H with bind ?c _ = _ => destruct c as [nw|e1] eqn:E1 end;
    cbn [bind] in H.
  2:{ injection H as <-. revert E1. unfold mapiM.
      apply (mapiM_from_throws (fun e => e = TypeError_undefined)). intros s k e2.
      apply (mapiM_from_throws (fun e => e = TypeError_undefined)). intros s1 i e3.
      apply (mapiM_from_throws (fun e => e = TypeError_undefined)). intros s2 j e4 H4.
      destruct (prop (get (nabla_w g) k)) as [gk|e5] eqn:E5; cbn [bind] in H4;
        [|injection H4 as <-; eapply prop_throws; eauto].
      destruct (prop (get gk i)) as [gki|e6] eqn:E6; cbn [bind] in H4;
        [discriminate|injection H4 as <-; eapply prop_throws; eauto]. }
  match type of H with bind ?c _ = _ => destruct c as [nb|e1] eqn:E2 end;
    cbn [bind] in H; [discriminate|].
  injection H as <-. revert E2. unfold mapiM.
  apply (mapiM_from_throws (fun e => e = TypeError_undefined)). intros s k e2.
  apply (mapiM_from_throws (fun e => e = TypeError_undefined)). intros s1 i e3 H3.
  destruct (prop (get (nabla_b g) k)) as [gk|e5] eqn:E5; cbn [bind] in H3;
    [discriminate|injection H3 as <-; eapply prop_throws; eauto].
Qed.

(** X7: [getMeanGradient] throws the error of the batch lengths exactly when
    its two lists differ in length: nothing it calls throws that error. *)
Theorem getMeanGradient_length_error_iff :
  forall (net : Network) (input target : list (list num)),
    getMeanGradient net input target = Throw BatchLengthError <->
    length input <> length target.
Proof.
  intros net input target. unfold getMeanGradient.
  destruct (length input =? length target) eqn:El; cbn [negb].
  - apply Nat.eqb_eq in El. split; [|intros H; contradiction].
    intros H. exfalso. cbv zeta in H.
    match type of H with bind ?c _ = _ => destruct c as [gs|e1] eqn:E1 end;
      cbn [bind] in H.
    2:{ injection H as ->. unfold mapiM in E1.
        apply (@mapiM_from_throws _ _ (fun e => e <> BatchLengthError)) in E1;
          [congruence|].
        intros x i e2 H2.
        destruct (prop (get target i)) as [t|e3] eqn:E3; cbn [bind] in H2.
        - destruct (getGradient_throws _ _ _ H2) as [[m ->]|[[m ->]|[->| ->]]];
            discriminate.
        - injection H2 as <-. apply prop_throws in E3. subst. discriminate. }
    match type of H with bind ?c _ = _ => destruct c as [tot|e1] eqn:E2 end;
      cbn [bind] in H; [discriminate|].
    injection H as ->.
    apply (@reduce1M_throws _ (fun e => e <> BatchLengthError)) in E2;
      [congruence| |discriminate].
    intros acc x i e2 H2. apply addGradient_throws in H2. subst. discriminate.
  - apply Nat.eqb_neq in El. split; auto.
Qed.

(** ** A layer without neurons *)

(** X8: A layer [k >= 1] whose matrix [weights[k]] has no row: [getGradient]
    never returns a gradient. If the backward loop reaches turn [k], the
    [reduce] that propagates the error has no row to start from and
    throws. *)
Theorem getGradient_empty_layer :
  forall (net : Network) (input target : list num) (k : nat) (g : Gradient),
    1 <= k -> k < length net.(biases) ->
    get net.(weights) k = Some [] ->
    getGradient net input target <> Ok g.
Proof.
  intros net input target k g Hk HL Hw H.
  unfold getGradient in H. bind_ok H.
  match goal with E : backward _ _ _ = Ok _ |- _ =>
    unfold backward in E; bind_ok E; rename E into Hloop end.
  destruct (@for_down_tail BackState (fun _ => True) (backStep net _) (S k)
              (fun _ _ _ _ _ => I) _ _ _ HL Hloop I) as (sk & _ & Htail).
  cbn [for_down] in Htail.
  destruct (backStep net _ k sk) as [s1|e] eqn:E; cbn [bind] in Htail; [|discriminate].
  unfold backStep in E. rewrite Hw in E. bind_ok E. cbv zeta in E. bind_ok E.
  match goal with E0 : prop (Some []) = Ok _ |- _ =>
    cbn [prop] in E0; injection E0 as <- end.
  match goal with E0 : mapiM _ [] = Ok _ |- _ =>
    cbn [mapiM mapiM_from] in E0; injection E0 as <- end.
  destruct k as [|k']; [lia|].
  unfold propagate, reduce1M in E. cbn [bind] in E. discriminate E.
Qed.

Lemma getGradient_empty_layer_witness :
  getGradient (constructor draws [(1, linear); (0, linear); (1, linear)])
              [] [0%float]
  <> Ok {| nabla_w := []; nabla_b := [] |}.
Proof.
  apply (@getGradient_empty_layer
           (constructor draws [(1, linear); (0, linear); (1, linear)])
           [] [0%float] 1).
  - apply le_n.
  - vm_compute. lia.
  - vm_compute. reflexivity.
Defined.

(** ** Shapes the gradient and the update keep *)

(** X9: Whenever [getGradient] returns, [nabla_w] has exactly the shape of
    [weights] (a matrix per layer, a row per row, an entry per entry) and
    [nabla_b] has one vector per layer. *)
Theorem getGradient_mirrors_weights :
  forall (net : Network) (input target : list num) (g : Gradient),
    getGradient net input target = Ok g ->
    shape3 g.(nabla_w) = shape3 net.(weights) /\
    length g.(nabla_b) = length net.(biases).
Proof.
  intros net input target g H. unfold getGradient in H. bind_ok H.
  injection H as <-. cbn [nabla_w nabla_b]. eapply backward_shape; eauto.
Qed.

Lemma getGradient_mirrors_weights_witness :
  shape3 [[]; [[(-4)%float; (-8)%float]]] = shape3 (scenario_open draws).(weights) /\
  length [[(-4)%float; (-8)%float]; [(-4)%float]]
  = length (scenario_open draws).(biases).
Proof.
  apply (@getGradient_mirrors_weights (scenario_open draws)
           [1%float; 2%float] [5%float]
           {| nabla_w := [[]; [[(-4)%float; (-8)%float]]];
              nabla_b := [[(-4)%float; (-8)%float]; [(-4)%float]] |}).
  vm_compute. reflexivity.
Defined.

Lemma mapi_from_map {A B C} (h : B -> C) (h' : A -> C) (f : A -> nat -> B) xs :
  (forall x n, h (f x n) = h' x) ->
  forall i, map h (mapi_from f i xs) = map h' xs.
Proof.
  intros Hf; induction xs as [|x xs IH]; simpl; intros i; [reflexivity|].
  now rewrite Hf, IH.
Qed.

Lemma applyGradient_spec_shape (net : Network) (g : Gradient) :
  shape3 (applyGradient_spec net g).(weights) = shape3 net.(weights) /\
  shape2 (applyGradient_spec net g).(biases) = shape2 net.(biases) /\
  (applyGradient_spec net g).(activations) = net.(activations).
Proof.
  unfold applyGradient_spec, shape3, shape2, mapi. cbn [weights biases activations].
  repeat split.
  - apply mapi_from_map. intros w0 k. apply mapi_from_map. intros w1 i.
    apply mapi_from_length.
  - apply mapi_from_map. intros b0 k. apply mapi_from_length.
Qed.

Lemma gradientDescend_spec_shape
  (batches : list (list (list num) * list (list num))) :
  forall net,
    let net' := fst (gradientDescend_spec net batches) in
    shape3 net'.(weights) = shape3 net.(weights) /\
    shape2 net'.(biases) = shape2 net.(biases) /\
    net'.(activations) = net.(activations).
Proof.
  induction batches as [|[i t] rest IH]; intros net; cbn [gradientDescend_spec].
  - cbn [fst]. auto.
  - destruct (getMeanGradient net i t) as [g|e]; [|cbn [fst]; auto].
    destruct (applyGradient_spec_shape net g) as (Hw & Hb & Ha).
    destruct (IH (applyGradient_spec net g)) as (Hw' & Hb' & Ha').
    cbv zeta. repeat split; congruence.
Qed.

(** X10: Whether [gradientDescend] returns or throws, the network it leaves has
    weights and biases of the same shapes as before the call and the same
    activations: the topology never changes. *)
Theorem gradientDescend_keeps_topology :
  forall (net : Network) (input target : list (list (list num))),
    let net' := fst (gradientDescend net input target) in
    shape3 net'.(weights) = shape3 net.(weights) /\
    shape2 net'.(biases) = shape2 net.(biases) /\
    net'.(activations) = net.(activations).
Proof.
  intros net input target. rewrite gradientDescend_refines.
  destruct (length input =? length target).
  - apply gradientDescend_spec_shape.
  - cbn [fst]. auto.
Qed.

(** ** Two calls of the update in a row *)

Lemma gradientDescend_spec_app
  (b1 b2 : list (list (list num) * list (list num))) :
  forall net,
    gradientDescend_spec net (b1 ++ b2)
    = match gradientDescend_spec net b1 with
      | (net', Ok _) => gradientDescend_spec net' b2
      | (net', Throw e) => (net', Throw e)
      end.
Proof.
  induction b1 as [|[i t] rest IH]; intros net; cbn [app gradientDescend_spec].
  - reflexivity.
  - destruct (getMeanGradient net i t) as [g|e]; [apply IH|reflexivity].
Qed.

Lemma combine_app_same {A B} (xs1 xs2 : list A) (ys1 ys2 : list B) :
  length xs1 = length ys1 ->
  combine (xs1 ++ xs2) (ys1 ++ ys2) = combine xs1 ys1 ++ combine xs2 ys2.
Proof.
  revert ys1; induction xs1 as [|x xs1 IH]; intros [|y ys1] H;
    try discriminate; [reflexivity|].
  simpl. f_equal. apply IH. now injection H.
Qed.

(** X11: One call of [gradientDescend] on a list of batches followed by a
    second list is the call on the first list and then, when that
    returned, the call on the second list on the network it left
    (each list of inputs being as long as its list of targets). *)
Theorem gradientDescend_app :
  forall (net : Network) (input1 input2 target1 target2 : list (list (list num))),
    length input1 = length target1 ->
    length input2 = length target2 ->
    gradientDescend net (input1 ++ input2) (target1 ++ target2)
    = match gradientDescend net input1 target1 with
      | (net', Ok _) => gradientDescend net' input2 target2
      | (net', Throw e) => (net', Throw e)
      end.
Proof.
  intros net input1 input2 target1 target2 H1 H2.
  rewrite !gradientDescend_refines, !length_app, H1, H2, !Nat.eqb_refl.
  rewrite (@combine_app_same _ _ input1 input2 target1 target2 H1),
    gradientDescend_spec_app.
  destruct (gradientDescend_spec net (combine input1 target1)) as [net' [u|e]];
    [|reflexivity].
  now rewrite gradientDescend_refines, H2, Nat.eqb_refl.
Qed.

Lemma gradientDescend_app_witness :
  gradientDescend (scenario_open draws)
    ([[[1%float; 2%float]]] ++ [[[1%float; 2%float]]])
    ([[[5%float]]] ++ [[[5%float]]])
  = match gradientDescend (scenario_open draws) [[[1%float; 2%float]]] [[[5%float]]] with
    | (net', Ok _) => gradientDescend net' [[[1%float; 2%float]]] [[[5%float]]]
    | (net', Throw e) => (net', Throw e)
    end.
Proof.
  apply (@gradientDescend_app (scenario_open draws)
           [[[1%float; 2%float]]] [[[1%float; 2%float]]]
           [[[5%float]]] [[[5%float]]]); reflexivity.
Defined.

(** ** The mean over a batch *)

Lemma mapiM_from_get_opt {A B} (f : A -> nat -> result B) xs :
  forall i ys, mapiM_from f i xs = Ok ys ->
  forall n,
    match get xs n with
    | Some x => exists y, get ys n = Some y /\ f x (i + n) = Ok y
    | None => get ys n = None
    end.
Proof.
  intros i ys H n. destruct (get xs n) as [x|] eqn:E.
  - eapply mapiM_from_get; eauto.
  - apply mapiM_from_length in H. apply nth_error_None.
    apply nth_error_None in E. lia.
Qed.

(** The callback of the sum adds, entry by entry, the gradient [g] to the
    accumulator, in the shape of the accumulator. *)
Lemma addGradient_entries (sum g s' : Gradient) :
  addGradient sum g = Ok s' ->
  (forall k i j,
      get3 s'.(nabla_w) k i j
      = option_map (fun s => (s + ofValue (get3 g.(nabla_w) k i j))%num)
                   (get3 sum.(nabla_w) k i j)) /\
  (forall k i,
      get2 s'.(nabla_b) k i
      = option_map (fun s => (s + ofValue (get2 g.(nabla_b) k i))%num)
                   (get2 sum.(nabla_b) k i)).
Proof.
  intros H. unfold addGradient in H. bind_ok H. injection H as <-.
  cbn [nabla_w nabla_b].
  match goal with
  | Ew : mapiM _ (nabla_w sum) = Ok ?nw, Eb : mapiM _ (nabla_b sum) = Ok ?nb |- _ =>
      rename Ew into Hw; rename Eb into Hb
  end.
  split.
  - intros k i j. unfold get3, get2.
    pose proof (mapiM_from_get_opt _ _ _ Hw k) as Hk.
    destruct (get (nabla_w sum) k) as [layer|]; [|now rewrite Hk].
    destruct Hk as (layer' & -> & Hl). cbn [Nat.add] in Hl.
    pose proof (mapiM_from_get_opt _ _ _ Hl i) as Hi.
    destruct (get layer i) as [row|]; [|now rewrite Hi].
    destruct Hi as (row' & -> & Hr). cbn [Nat.add] in Hr.
    pose proof (mapiM_from_get_opt _ _ _ Hr j) as Hj.
    destruct (get row j) as [s2|]; [|now rewrite Hj].
    destruct Hj as (y & -> & Hy). cbn [Nat.add] in Hy. bind_ok Hy.
    injection Hy as <-.
    repeat match goal with E : prop _ = Ok _ |- _ => apply prop_ok in E; rewrite E end.
    reflexivity.
  - intros k i. unfold get2.
    pose proof (mapiM_from_get_opt _ _ _ Hb k) as Hk.
    destruct (get (nabla_b sum) k) as [layer|]; [|now rewrite Hk].
    destruct Hk as (layer' & -> & Hl). cbn [Nat.add] in Hl.
    pose proof (mapiM_from_get_opt _ _ _ Hl i) as Hi.
    destruct (get layer i) as [s1|]; [|now rewrite Hi].
    destruct Hi as (y & -> & Hy). cbn [Nat.add] in Hy. bind_ok Hy.
    injection Hy as <-.
    repeat match goal with E : prop _ = Ok _ |- _ => apply prop_ok in E; rewrite E end.
    reflexivity.
Qed.

Lemma sum_entries (gs : list Gradient) :
  forall idx acc tot,
    reduceM_from (fun sum g (_ : nat) => addGradient sum g) idx acc gs = Ok tot ->
    (forall k i j,
        get3 tot.(nabla_w) k i j
        = option_map
            (fun v0 => fold_left (fun s gn => (s + ofValue (get3 gn.(nabla_w) k i j))%num)
                                 gs v0)
            (get3 acc.(nabla_w) k i j)) /\
    (forall k i,
        get2 tot.(nabla_b) k i
        = option_map
            (fun v0 => fold_left (fun s gn => (s + ofValue (get2 gn.(nabla_b) k i))%num)
                                 gs v0)
            (get2 acc.(nabla_b) k i)).
Proof.
  induction gs as [|g gs IH]; intros idx acc tot H; cbn [reduceM_from] in H.
  - injection H as <-. cbn [fold_left].
    split; intros; now destruct (_ : option num).
  - destruct (addGradient acc g) as [acc'|e] eqn:E; cbn [bind] in H; [|discriminate].
    destruct (IH _ _ _ H) as [Hw Hb].
    destruct (addGradient_entries _ _ E) as [Hw' Hb'].
    split.
    + intros k i j. rewrite Hw, Hw'. cbn [fold_left].
      now destruct (get3 (nabla_w acc) k i j).
    + intros k i. rewrite Hb, Hb'. cbn [fold_left].
      now destruct (get2 (nabla_b acc) k i).
Qed.

Lemma get3_map (h : num -> num) (w : list (list (list num))) (k i j : nat) :
  get3 (map (fun m => map (fun r => map h r) m) w) k i j
  = option_map h (get3 w k i j).
Proof.
  unfold get3, get2, get. rewrite nth_error_map.
  destruct (nth_error w k) as [m|]; [|reflexivity]. cbn [option_map].
  rewrite nth_error_map. destruct (nth_error m i) as [r|]; [|reflexivity].
  cbn [option_map]. apply nth_error_map.
Qed.

Lemma get2_map (h : num -> num) (m : list (list num)) (k i : nat) :
  get2 (map (fun r => map h r) m) k i = option_map h (get2 m k i).
Proof.
  unfold get2, get. rewrite nth_error_map.
  destruct (nth_error m k) as [r|]; [|reflexivity]. cbn [option_map].
  apply nth_error_map.
Qed.

(** X12: Whenever [getMeanGradient] returns, there is one gradient per example,
    the one [getGradient] returns for it, and every entry of the result is
    the sum of the examples' entries, added from the first example on, and
    divided by the number of examples. *)
Theorem getMeanGradient_is_mean :
  forall (net : Network) (input target : list (list num)) (g : Gradient),
    getMeanGradient net input target = Ok g ->
    exists g0 rest,
      (forall n x, get input n = Some x ->
         exists t gn,
           get target n = Some t /\ get (g0 :: rest) n = Some gn /\
           getGradient net x t = Ok gn) /\
      length (g0 :: rest) = length input /\
      (forall k i j,
          get3 g.(nabla_w) k i j
          = option_map
              (fun v0 =>
                 (fold_left (fun s gn => (s + ofValue (get3 gn.(nabla_w) k i j))%num)
                            rest v0
                  / of_nat (length input))%num)
              (get3 g0.(nabla_w) k i j)) /\
      (forall k i,
          get2 g.(nabla_b) k i
          = option_map
              (fun v0 =>
                 (fold_left (fun s gn => (s + ofValue (get2 gn.(nabla_b) k i))%num)
                            rest v0
                  / of_nat (length input))%num)
              (get2 g0.(nabla_b) k i)).
Proof.
  intros net input target g H. unfold getMeanGradient in H.
  destruct (negb (length input =? length target)); [discriminate|].
  cbv zeta in H. bind_ok H. injection H as <-. cbn [nabla_w nabla_b].
  match goal with
  | Em : mapiM _ input = Ok ?gs, Er : reduce1M _ ?gs = Ok ?tot |- _ =>
      rename Em into Hmap; rename Er into Hred;
      destruct gs as [|g0 rest]; [discriminate Hred|]
  end.
  exists g0, rest. unfold reduce1M in Hred.
  destruct (sum_entries _ _ _ Hred) as [Hw Hb].
  split; [|split; [|split]].
  - intros n x Hx. unfold mapiM in Hmap.
    destruct (mapiM_from_get _ _ _ Hmap _ Hx) as (gn & Hgn & Hf).
    cbn [Nat.add] in Hf. bind_ok Hf.
    match goal with E : prop _ = Ok ?t |- _ => apply prop_ok in E; exists t, gn end.
    auto.
  - eapply mapiM_from_length; eauto.
  - intros k i j. rewrite get3_map, Hw. now destruct (get3 (nabla_w g0) k i j).
  - intros k i. rewrite get2_map, Hb. now destruct (get2 (nabla_b g0) k i).
Qed.

(** ** The activations *)

(** *** Comparisons of binary64 numbers *)

Lemma SFcompare_antisym (a b : spec_float) :
  SFcompare b a = option_map CompOpp (SFcompare a b).
Proof.
  destruct a as [sa|sa| |sa ma ea], b as [sb|sb| |sb mb eb]; simpl; try reflexivity;
    try (destruct sa; reflexivity); try (destruct sb; reflexivity);
    try (destruct sa, sb; reflexivity).
  destruct sa, sb; simpl; try reflexivity;
    rewrite (Z.compare_antisym ea eb); destruct (ea ?= eb)%Z; simpl; try reflexivity;
    rewrite (Pos.compare_cont_antisym ma mb Eq); simpl;
    now rewrite ?CompOpp_involutive.
Qed.

Lemma SFcompare_refl (s : spec_float) : s <> S754_nan -> SFcompare s s = Some Eq.
Proof.
  destruct s as [b|b| |b m e]; simpl; intros H; try congruence;
    try (destruct b; reflexivity).
  destruct b; rewrite Z.compare_refl; fold (Pos.compare m m);
    now rewrite Pos.compare_refl.
Qed.

Lemma SFcompare_None (a b : spec_float) :
  SFcompare a b = None <-> a = S754_nan \/ b = S754_nan.
Proof.
  destruct a as [sa|sa| |sa ma ea], b as [sb|sb| |sb mb eb]; simpl;
    split; intros H; try discriminate; auto;
    try (destruct H; discriminate).
Qed.

Lemma is_nan_spec (x : float) : PrimFloat.is_nan x = true <-> Prim2SF x = S754_nan.
Proof.
  unfold PrimFloat.is_nan. rewrite eqb_spec. unfold SFeqb. split.
  - intros H. destruct (Prim2SF x) eqn:E; try reflexivity;
      rewrite SFcompare_refl in H by discriminate; discriminate.
  - intros ->. reflexivity.
Qed.

Lemma leb_false_iff (a b : float) :
  PrimFloat.leb a b = false <->
  PrimFloat.is_nan a = true \/ PrimFloat.is_nan b = true \/ PrimFloat.ltb b a = true.
Proof.
  rewrite leb_spec, ltb_spec, !is_nan_spec. unfold SFleb, SFltb.
  rewrite (SFcompare_antisym (Prim2SF a) (Prim2SF b)).
  pose proof (SFcompare_None (Prim2SF a) (Prim2SF b)) as HN.
  destruct (SFcompare (Prim2SF a) (Prim2SF b)) as [[]|]; simpl; split; intros H;
    try discriminate; auto.
  - destruct H as [H|[H|H]]; try discriminate;
      (assert (Some Eq = None) by (apply HN; auto); discriminate).
  - destruct H as [H|[H|H]]; try discriminate;
      (assert (Some Lt = None) by (apply HN; auto); discriminate).
  - destruct HN as [HN _]. destruct (HN eq_refl); auto.
Qed.

Lemma ltb_true_order (a b : float) :
  PrimFloat.ltb a b = true ->
  PrimFloat.is_nan a = false /\ PrimFloat.is_nan b = false /\
  PrimFloat.ltb b a = false /\ PrimFloat.leb a b = true.
Proof.
  intros H.
  assert (Ha : PrimFloat.is_nan a <> true /\ PrimFloat.is_nan b <> true).
  { rewrite !is_nan_spec. rewrite ltb_spec in H. unfold SFltb in H.
    split; intros E; rewrite E in H; [|destruct (Prim2SF a)]; discriminate. }
  destruct Ha as [Ha Hb]. apply not_true_is_false in Ha, Hb.
  repeat split; auto.
  - rewrite ltb_spec in *. unfold SFltb in *.
    rewrite (SFcompare_antisym (Prim2SF a) (Prim2SF b)).
    destruct (SFcompare (Prim2SF a) (Prim2SF b)) as [[]|]; try discriminate.
    reflexivity.
  - rewrite leb_spec. rewrite ltb_spec in H. unfold SFleb, SFltb in *.
    destruct (SFcompare (Prim2SF a) (Prim2SF b)) as [[]|]; try discriminate.
    reflexivity.
Qed.

Lemma eqb_true_order (a b : float) :
  PrimFloat.eqb a b = true ->
  PrimFloat.is_nan a = false /\ PrimFloat.is_nan b = false /\
  PrimFloat.ltb a b = false /\ PrimFloat.ltb b a = false /\
  PrimFloat.leb b a = true.
Proof.
  intros H.
  assert (Ha : PrimFloat.is_nan a <> true /\ PrimFloat.is_nan b <> true).
  { rewrite !is_nan_spec. rewrite eqb_spec in H. unfold SFeqb in H.
    split; intros E; rewrite E in H; [|destruct (Prim2SF a)]; discriminate. }
  destruct Ha as [Ha Hb]. apply not_true_is_false in Ha, Hb.
  rewrite eqb_spec in H. rewrite !ltb_spec, leb_spec. unfold SFeqb, SFltb, SFleb in *.
  rewrite (SFcompare_antisym (Prim2SF a) (Prim2SF b)).
  destruct (SFcompare (Prim2SF a) (Prim2SF b)) as [[]|]; try discriminate.
  repeat split; auto.
Qed.

Lemma float_trichotomy (a b : float) :
  PrimFloat.is_nan a = true \/ PrimFloat.is_nan b = true \/
  PrimFloat.ltb a b = true \/ PrimFloat.eqb a b = true \/ PrimFloat.ltb b a = true.
Proof.
  rewrite !is_nan_spec, !ltb_spec, eqb_spec. unfold SFltb, SFeqb.
  rewrite (SFcompare_antisym (Prim2SF a) (Prim2SF b)).
  pose proof (SFcompare_None (Prim2SF a) (Prim2SF b)) as HN.
  destruct (SFcompare (Prim2SF a) (Prim2SF b)) as [[]|]; simpl; auto.
  destruct HN as [HN _]. destruct (HN eq_refl); auto.
Qed.

Lemma mul_nan_l (x : num) : (NaN * x)%num = NaN.
Proof.
  unfold mul, NaN. apply Prim2SF_inj. rewrite mul_spec.
  change (Prim2SF nan) with S754_nan. reflexivity.
Qed.

(** *** [reLU] *)

(** X13: [reLU] on every number: [NaN] gives [NaN] with derivative 0; a number
    above 0 gives itself with derivative 1; a zero of either sign gives
    [+0] with derivative 1; a number below 0 gives [+0] with derivative 0.
    Every number is in one of the four cases, so the activation returns
    neither a number below 0 nor [-0]. *)
Theorem reLU_cases :
  forall x : num,
    (PrimFloat.is_nan x = true ->
       reLU.(activation) x = NaN /\ reLU.(dActivation) x = zero) /\
    (PrimFloat.ltb zero x = true ->
       reLU.(activation) x = x /\ reLU.(dActivation) x = one) /\
    (PrimFloat.eqb x zero = true ->
       reLU.(activation) x = zero /\ reLU.(dActivation) x = one) /\
    (PrimFloat.ltb x zero = true ->
       reLU.(activation) x = zero /\ reLU.(dActivation) x = zero) /\
    (PrimFloat.is_nan x = true \/ PrimFloat.ltb zero x = true \/
     PrimFloat.eqb x zero = true \/ PrimFloat.ltb x zero = true).
Proof.
  intros x. unfold reLU, Math_max. cbn [activation dActivation].
  change (PrimFloat.is_nan zero) with false. change (PrimFloat.get_sign zero) with false.
  cbn [orb]. split; [|split; [|split; [|split]]].
  - intros H. rewrite H. split; [reflexivity|].
    replace (PrimFloat.leb zero x) with false; [reflexivity|].
    symmetry. apply leb_false_iff. auto.
  - intros H. destruct (ltb_true_order H) as (_ & Hn & _ & Hl).
    now rewrite Hn, H, Hl.
  - intros H. destruct (eqb_true_order H) as (Hn & _ & H1 & H2 & Hl).
    now rewrite Hn, H2, H1, Hl.
  - intros H. destruct (ltb_true_order H) as (Hn & _ & H1 & _).
    rewrite Hn, H1, H. split; [reflexivity|].
    replace (PrimFloat.leb zero x) with false; [reflexivity|].
    symmetry. apply leb_false_iff. auto.
  - destruct (float_trichotomy x zero) as [H|[H|[H|[H|H]]]]; auto.
    discriminate H.
Qed.

Lemma reLU_cases_witness :
  reLU.(activation) 3%float = 3%float /\ reLU.(dActivation) 3%float = one.
Proof.
  destruct (reLU_cases 3%float) as (_ & H & _). apply H. reflexivity.
Defined.

(** *** [leakyReLU] *)

(** X14: [leakyReLU(alpha)] returns an activation exactly when [alpha] is above
    0 and below 1, or is [NaN]: the guard [alpha >= 1 || alpha <= 0] is
    false on [NaN]. The activation made from [NaN] returns [NaN] on every
    number. *)
Theorem leakyReLU_returns_iff :
  forall alpha : num,
    ((exists act, leakyReLU alpha = Some act) <->
     PrimFloat.is_nan alpha = true \/
     (PrimFloat.ltb zero alpha = true /\ PrimFloat.ltb alpha one = true)) /\
    (exists act, leakyReLU NaN = Some act /\ forall x, act.(activation) x = NaN).
Proof.
  intros alpha. split.
  - unfold leakyReLU.
    destruct (PrimFloat.leb one alpha || PrimFloat.leb alpha zero) eqn:E.
    + split; [intros [act H]; discriminate|].
      intros H. exfalso.
      assert (H1 : PrimFloat.leb one alpha = false)
        by (apply leb_false_iff; destruct H as [H|[_ H]]; auto).
      assert (H0 : PrimFloat.leb alpha zero = false)
        by (apply leb_false_iff; destruct H as [H|[H _]]; auto).
      rewrite H1, H0 in E. discriminate.
    + split; [|eauto]. intros _.
      apply orb_false_elim in E. destruct E as [H1 H0].
      apply leb_false_iff in H1, H0.
      destruct H1 as [H1|[H1|H1]]; [discriminate H1|auto|].
      destruct H0 as [H0|[H0|H0]]; [auto|discriminate H0|auto].
  - eexists. split; [reflexivity|]. intros x. cbn [activation].
    rewrite mul_nan_l. unfold Math_max.
    change (PrimFloat.is_nan NaN) with true. now rewrite orb_true_r.
Qed.

(** ** When the cost of a constructed network is a number *)

Lemma checkTarget_ok (net : Network) (target : list num) (u : unit) :
  checkTarget net target = Ok u ->
  exists bL,
    get_pred net.(biases) (length net.(biases)) = Some bL /\
    length bL = length target.
Proof.
  unfold checkTarget. cbv zeta.
  destruct (get_pred (biases net) (length (biases net))) as [bL|]; cbn [prop bind];
    [|discriminate].
  destruct (length bL =? length target) eqn:E; [|discriminate].
  apply Nat.eqb_eq in E. eauto.
Qed.

(** The last vector of [biases] of a network the constructor built: empty
    for one layer, of [size(L - 1)] entries otherwise. *)
Lemma constructor_last_biases (Math_random : nat -> num)
  (layers : list (nat * Activation)) :
  layers <> [] ->
  exists bL,
    get_pred (constructor Math_random layers).(biases)
             (length (constructor Math_random layers).(biases)) = Some bL /\
    length bL = if length layers =? 1 then 0 else size layers (length layers - 1).
Proof.
  intros Hne.
  destruct (constructor_lengths Math_random layers) as (_ & Hlb & _).
  rewrite Hlb.
  destruct layers as [|l0 [|l1 rest]] eqn:El; [congruence| |].
  - exists []. split; [|reflexivity].
    cbn [length get_pred]. rewrite <- El. apply constructor_biases_0. congruence.
  - rewrite <- El in *.
    assert (HL : 2 <= length layers) by (rewrite El; simpl; lia).
    destruct (@constructor_layer Math_random layers (length layers - 1))
      as (wk & bk & _ & Hbk & _ & _ & Hl); [lia|lia|].
    exists bk. split.
    + destruct (length layers) as [|L']; [lia|]. cbn [get_pred].
      replace (S L' - 1) with L' in Hbk by lia. exact Hbk.
    + destruct (length layers =? 1) eqn:E1; [apply Nat.eqb_eq in E1; lia|exact Hl].
Qed.

(** X15: On a network the constructor built, [getCost] returns a number exactly
    when the input is empty, there are two layers or more, the output
    layer has a neuron and the target has one number per output neuron. *)
Theorem constructor_getCost_returns_iff :
  forall (Math_random : nat -> num) (layers : list (nat * Activation))
         (input target : list num),
    layers <> [] ->
    (exists v, getCost (constructor Math_random layers) input target = Ok v) <->
    input = [] /\ 2 <= length layers /\
    0 < size layers (length layers - 1) /\
    length target = size layers (length layers - 1).
Proof.
  intros Math_random layers input target Hne.
  pose proof (constructor_biases_0 Math_random Hne) as H0.
  destruct (constructor_last_biases Math_random Hne) as (bL & HbL & HlL).
  assert (Hpos : 0 < length layers) by (destruct layers; [congruence|simpl; lia]).
  split.
  - intros [v H].
    assert (Hbl : bL <> [])
      by (intros ->; exact (getCost_needs_output _ _ _ HbL H)).
    unfold getCost in H. bind_ok H. cbv zeta in H. bind_ok H.
    match goal with E : checkInput _ _ = Ok ?u |- _ =>
      destruct u; apply checkInput_ok_iff in E; destruct E as (b0 & Hb0 & Hl0) end.
    match goal with E : checkTarget _ _ = Ok _ |- _ =>
      apply checkTarget_ok in E; destruct E as (bL' & HbL' & Hlt) end.
    rewrite H0 in Hb0. injection Hb0 as <-. rewrite HbL in HbL'. injection HbL' as <-.
    destruct (length layers =? 1) eqn:Eone.
    + destruct bL; [congruence|discriminate HlL].
    + apply Nat.eqb_neq in Eone.
      repeat split; try lia.
      * destruct input; [reflexivity|discriminate Hl0].
      * destruct bL; [congruence|]. simpl in HlL. lia.
  - intros (-> & HL & Hsz & Hlt).
    destruct (constructor_getOutput_empty Math_random Hne) as (a & Ha).
    destruct (getOutput_shape_input _ _ Ha) as [Hsh _].
    replace (length layers =? 1) with false in HlL
      by (symmetry; apply Nat.eqb_neq; lia).
    unfold getCost.
    replace (checkInput (constructor Math_random layers) []) with (Ok tt)
      by (symmetry; apply checkInput_ok_iff; eauto).
    cbn [bind]. cbv zeta. unfold checkTarget. cbv zeta. rewrite HbL.
    cbn [prop bind].
    replace (length bL =? length target) with true
      by (symmetry; apply Nat.eqb_eq; lia).
    cbn [bind]. rewrite Ha. cbn [bind].
    destruct (length (biases (constructor Math_random layers))) as [|L'] eqn:EL;
      [discriminate HbL|].
    cbn [get_pred] in *.
    destruct (map_eq_get _ _ _ _ _ Hsh HbL) as (aL & HaL & HlaL).
    unfold get in HaL. rewrite HaL. cbn [prop bind].
    destruct aL as [|o os]; [simpl in HlaL; lia|].
    unfold reduce1M. apply reduceM_from_total. intros acc x i. eauto.
Qed.

Lemma constructor_getCost_returns_iff_witness :
  (exists v, getCost (constructor draws [(2, linear); (1, linear)]) [] [5%float] = Ok v)
  <->
  @nil num = [] /\ 2 <= 2 /\
  0 < size [(2, linear); (1, linear)] (2 - 1) /\
  length [5%float] = size [(2, linear); (1, linear)] (2 - 1).
Proof.
  apply (@constructor_getCost_returns_iff draws [(2, linear); (1, linear)] [] [5%float]).
  discriminate.
Defined.

(** ** The first vector of [nabla_b] *)

(** X16: On a network the constructor built with two layers or more, whenever
    [getGradient] returns, [nabla_b[0]] has [size(0)] entries although
    [biases[0]] has none: the backward loop runs its turn 0 on the error
    propagated to the input layer. *)
Theorem nabla_b_0_has_input_width :
  forall (Math_random : nat -> num) (layers : list (nat * Activation))
         (input target : list num) (g : Gradient),
    2 <= length layers ->
    getGradient (constructor Math_random layers) input target = Ok g ->
    get (constructor Math_random layers).(biases) 0 = Some [] /\
    exists nb0, get g.(nabla_b) 0 = Some nb0 /\ length nb0 = size layers 0.
Proof.
  intros Math_random layers input target g. apply constructor_nabla_b_0.
Qed.

Lemma nabla_b_0_has_input_width_witness :
  get (constructor draws [(2, linear); (1, linear)]).(biases) 0 = Some [] /\
  exists nb0,
    get [[NaN; NaN]; [NaN]] 0 = Some nb0 /\
    length nb0 = size [(2, linear); (1, linear)] 0.
Proof.
  apply (@nabla_b_0_has_input_width draws [(2, linear); (1, linear)] [] [5%float]
           {| nabla_w := [[]; [[NaN; NaN]]]; nabla_b := [[NaN; NaN]; [NaN]] |}).
  - apply le_n.
  - vm_compute. reflexivity.
Defined.

(** The mean over the two examples [([1, 2], [5])] and [([1, 2], [5])]. *)
Lemma getMeanGradient_is_mean_witness :
  let net := scenario_open draws in
  let input := [[1%float; 2%float]; [1%float; 2%float]] in
  let target := [[5%float]; [5%float]] in
  let g := {| nabla_w := [[]; [[(-4)%float; (-8)%float]]];
              nabla_b := [[(-4)%float; (-8)%float]; [(-4)%float]] |} in
  exists g0 rest,
    (forall n x, get input n = Some x ->
       exists t gn,
         get target n = Some t /\ get (g0 :: rest) n = Some gn /\
         getGradient net x t = Ok gn) /\
    length (g0 :: rest) = length input /\
    (forall k i j,
        get3 g.(nabla_w) k i j
        = option_map
            (fun v0 =>
               (fold_left (fun s gn => (s + ofValue (get3 gn.(nabla_w) k i j))%num)
                          rest v0
                / of_nat (length input))%num)
            (get3 g0.(nabla_w) k i j)) /\
    (forall k i,
        get2 g.(nabla_b) k i
        = option_map
            (fun v0 =>
               (fold_left (fun s gn => (s + ofValue (get2 gn.(nabla_b) k i))%num)
                          rest v0
                / of_nat (length input))%num)
            (get2 g0.(nabla_b) k i)).
Proof.
  cbv zeta.
  apply (@getMeanGradient_is_mean (scenario_open draws)
           [[1%float; 2%float]; [1%float; 2%float]] [[5%float]; [5%float]]).
  vm_compute. reflexivity.
Defined.
